(** * The special value types of the FaunaDB JavaScript driver (src/objects.js)

    A shallow embedding of [Ref], [SetRef], [Page], [FaunaTime] and
    [FaunaDate].  JavaScript objects live in a store indexed by locations, so
    that object identity ([return this] against [new Ref(...)]), allocation and
    the absence of mutation can be stated.  Every method is a computation in a
    state-and-exception monad over that store. *)

From Stdlib Require Import ZArith Ascii String.
From stdpp Require Import base option list strings gmap fin_maps.

Local Open Scope Z_scope.

(** ** Host strings

    A JavaScript string is a sequence of code units; the embedding uses
    [string], a sequence of [ascii] characters.  The functions below are the
    built-in string and array methods the source calls. *)

(** [a.join(sep)] on an array whose elements are already strings. *)
Fixpoint join (sep : string) (parts : list string) : string :=
  match parts with
  | [] => EmptyString
  | [p] => p
  | p :: rest => p +:+ sep +:+ join sep rest
  end.

(** [s.split(sep)] for a separator [sep] of one character, as in
    [this.value.split('/')].  The result is never empty: the empty string
    splits into one empty segment. *)
Fixpoint split (sep : ascii) (s : string) : list string :=
  match s with
  | EmptyString => [EmptyString]
  | String c s' =>
      if Ascii.eqb c sep then EmptyString :: split sep s'
      else match split sep s' with
           | [] => [String c EmptyString]
           | p :: ps => String c p :: ps
           end
  end.

(** The index arithmetic shared by [Array.prototype.slice] and
    [String.prototype.slice]: a negative index counts from the end, and both
    ends are clamped to the length.  Returns the start offset and the count. *)
Definition slice_range (len start fin : Z) : nat * nat :=
  let k := if start <? 0 then Z.max (len + start) 0 else Z.min start len in
  let final := if fin <? 0 then Z.max (len + fin) 0 else Z.min fin len in
  (Z.to_nat k, Z.to_nat (final - k)).

(** [a.slice(start, end)] on arrays. *)
Definition Array_slice {A} (start fin : Z) (a : list A) : list A :=
  let '(k, n) := slice_range (Z.of_nat (length a)) start fin in
  take n (drop k a).

(** [s.slice(start, end)] on strings. *)
Definition String_slice (start fin : Z) (s : string) : string :=
  let '(k, n) := slice_range (Z.of_nat (String.length s)) start fin in
  String.substring k n s.

(** [s.endsWith(suffix)]. *)
Definition endsWith (s suffix : string) : bool :=
  let n := String.length s in
  let m := String.length suffix in
  (m <=? n)%nat && String.eqb (String.substring (n - m) m s) suffix.

(** ** Values, objects and the store *)

Definition loc := positive.

(** The JavaScript values the module is applied to: primitives, and
    references to objects in the store. *)
Inductive Value : Type :=
  | VUndefined
  | VNull
  | VBool (b : bool)
  | VStr (s : string)
  | VObj (l : loc).

(** Objects, by class.  A [Date] holds its time value, milliseconds since the
    epoch, or [None] for the NaN time value of an invalid date.  An array
    holds an element at every index below its length: arrays with holes are
    not modelled.  A plain object literal keeps its properties in insertion
    order. *)
Inductive Obj : Type :=
  | ORef (value : string)
  | OSetRef (query : Value)
  | OPage (data before after : Value)
  | OFaunaTime (value : string)
  | OFaunaDate (value : Value)
  | ODate (tv : option Z)
  | OArray (elems : list Value)
  | OObject (props : list (string * Value)).

Abbreviation heap := (gmap loc Obj).

(** ** Errors and the computation monad *)

(** [InvalidValue] is the error class of src/errors.js; the other two are the
    host's. *)
Inductive Error : Type :=
  | InvalidValue (message : string)
  | RangeError
  | TypeError.

(** How a call ends: with a result, with a thrown error, or [Stuck] when it
    leaves the fragment of JavaScript embedded here (a dangling location, a
    method applied to a receiver of another class, a host-defined string
    form). *)
Inductive Completion (A : Type) : Type :=
  | Normal (a : A)
  | Throw (e : Error)
  | Stuck.
Arguments Normal {A} a.
Arguments Throw {A} e.
Arguments Stuck {A}.

Definition JS (A : Type) : Type := heap → Completion A * heap.

Definition ret {A} (a : A) : JS A := λ h, (Normal a, h).
Definition throw {A} (e : Error) : JS A := λ h, (Throw e, h).
Definition stuck {A} : JS A := λ h, (Stuck, h).
Definition bind {A B} (m : JS A) (k : A → JS B) : JS B :=
  λ h, match m h with
       | (Normal a, h') => k a h'
       | (Throw e, h') => (Throw e, h')
       | (Stuck, h') => (Stuck, h')
       end.

Notation "'do' x <- m ; k" := (bind m (λ x, k))
  (at level 10, x name, m at level 100, k at level 200,
   format "'[v' 'do'  x  <-  m ; '/' k ']'").

(** Reading the object at a location. *)
Definition load (l : loc) : JS Obj :=
  λ h, match h !! l with
       | Some o => (Normal o, h)
       | None => (Stuck, h)
       end.

(** [new]: the object is placed at a location the store does not use. *)
Definition alloc (o : Obj) : JS loc :=
  λ h, let l := fresh (dom h) in (Normal l, <[l := o]> h).

Fixpoint mapM {A B} (f : A → JS B) (l : list A) : JS (list B) :=
  match l with
  | [] => ret []
  | x :: xs => do y <- f x; do ys <- mapM f xs; ret (y :: ys)
  end.

(** ** String forms *)

(** The value an object literal gives to a property name. *)
Fixpoint property (key : string) (props : list (string * Value)) : option Value :=
  match props with
  | [] => None
  | (k, v) :: rest => if String.eqb k key then Some v else property key rest
  end.

(** [ToString(v)].  A [Ref] answers with its own [toString], which returns
    [this.value]; the other classes of this module and plain objects inherit
    [Object.prototype.toString].  An object literal with a [toString] property
    of its own hides the inherited method behind a value that cannot be
    called, and has no string form: a [TypeError].  The string forms of dates
    (host-defined) and of arrays (recursive) are not modelled. *)
Definition ToString (v : Value) : JS string :=
  match v with
  | VUndefined => ret "undefined"
  | VNull => ret "null"
  | VBool true => ret "true"
  | VBool false => ret "false"
  | VStr s => ret s
  | VObj l =>
      do o <- load l;
      match o with
      | ORef value => ret value
      | OSetRef _ | OPage _ _ _ | OFaunaTime _ | OFaunaDate _ =>
          ret "[object Object]"
      | OObject props =>
          match property "toString" props with
          | Some _ => throw TypeError
          | None => ret "[object Object]"
          end
      | ODate _ | OArray _ => stuck
      end
  end.

(** [a.join(sep)] on an array of values: [undefined] and [null] contribute the
    empty string, every other element its string form. *)
Definition join_element (v : Value) : JS string :=
  match v with
  | VUndefined | VNull => ret EmptyString
  | _ => ToString v
  end.

Definition Array_join (sep : string) (a : list Value) : JS string :=
  do strs <- mapM join_element a; ret (join sep strs).

(** ** Property reads *)

(** The data properties an object has of its own: the fields its constructor
    assigns, or the properties of an object literal. *)
Definition own_property (o : Obj) (key : string) : option Value :=
  match o with
  | ORef v => if String.eqb key "value" then Some (VStr v) else None
  | OSetRef q => if String.eqb key "query" then Some q else None
  | OPage data before after =>
      if String.eqb key "data" then Some data
      else if String.eqb key "before" then Some before
      else if String.eqb key "after" then Some after
      else None
  | OFaunaTime v => if String.eqb key "value" then Some (VStr v) else None
  | OFaunaDate v => if String.eqb key "value" then Some v else None
  | ODate _ | OArray _ => None
  | OObject props => property key props
  end.

(** The property names the source reads.  No prototype of the host or of
    this module defines any of them, so that reading one finds an own
    property or nothing. *)
Definition field_names : list string :=
  ["value"; "query"; "data"; "before"; "after"].

(** [v.key] for one of these names: the own property, [undefined] when there
    is none, and a [TypeError] on [undefined] and [null]. *)
Definition Get (v : Value) (key : string) : JS Value :=
  if negb (bool_decide (key ∈ field_names)) then stuck
  else
    match v with
    | VUndefined | VNull => throw TypeError
    | VBool _ | VStr _ => ret VUndefined
    | VObj l => do o <- load l; ret (default VUndefined (own_property o key))
    end.

(** ** JSON.stringify *)

Definition quote_char : ascii := "034"%char.
Definition backslash : ascii := "092"%char.

Definition hex_digit (n : nat) : ascii :=
  if (n <? 10)%nat then ascii_of_nat (48 + n) else ascii_of_nat (87 + n).

(** How [JSON.stringify] writes one character of a string: the quote, the
    backslash and the control characters are escaped. *)
Definition escape (c : ascii) : string :=
  let n := nat_of_ascii c in
  if Ascii.eqb c quote_char then String backslash (String quote_char EmptyString)
  else if Ascii.eqb c backslash then String backslash (String backslash EmptyString)
  else if (n =? 8)%nat then String backslash "b"
  else if (n =? 12)%nat then String backslash "f"
  else if (n =? 10)%nat then String backslash "n"
  else if (n =? 13)%nat then String backslash "r"
  else if (n =? 9)%nat then String backslash "t"
  else if (n <? 32)%nat then
    String backslash
      ("u00" +:+ String (hex_digit (n / 16))
                   (String (hex_digit (n mod 16)) EmptyString))
  else String c EmptyString.

Fixpoint escape_all (s : string) : string :=
  match s with
  | EmptyString => EmptyString
  | String c s' => escape c +:+ escape_all s'
  end.

Definition QuoteJSONString (s : string) : string :=
  String quote_char (escape_all s +:+ String quote_char EmptyString).

(** [JSON.stringify(v)] on primitives; [undefined] has no JSON text and gives
    [undefined].  Objects, which are written through their [toJSON] and
    recursively, are not modelled. *)
Definition JSON_stringify (v : Value) : JS Value :=
  match v with
  | VUndefined => ret VUndefined
  | VNull => ret (VStr "null")
  | VBool true => ret (VStr "true")
  | VBool false => ret (VStr "false")
  | VStr s => ret (VStr (QuoteJSONString s))
  | VObj _ => stuck
  end.

(** ** Ref *)

Module Ref.

(** [new Ref(...arguments)]. *)
Definition constructor (arguments : list Value) : JS loc :=
  let parts := arguments in
  do value <- Array_join "/" parts;
  alloc (ORef value).

(** [this.value] of a receiver that is a [Ref]. *)
Definition value (this : loc) : JS string :=
  do o <- load this;
  match o with
  | ORef v => ret v
  | _ => stuck
  end.

(** [get class()]. *)
Definition class (this : loc) : JS loc :=
  do v <- value this;
  let parts := split "/" v in
  if (length parts =? 1)%nat then ret this
  else
    constructor
      [VStr (join "/" (Array_slice 0 (Z.of_nat (length parts) - 1) parts))].

(** [get id()]. *)
Definition id (this : loc) : JS Value :=
  do v <- value this;
  let parts := split "/" v in
  if (length parts =? 1)%nat
  then throw (InvalidValue "The Ref does not have an id.")
  else ret (from_option VStr VUndefined (parts !! (length parts - 1)%nat)).

(** [toJSON()]: the object literal [{'@ref': this.value}]. *)
Definition toJSON (this : loc) : JS loc :=
  do v <- value this;
  alloc (OObject [("@ref", VStr v)]).

(** [toString()]. *)
Definition toString (this : loc) : JS string := value this.

(** [other instanceof Ref]. *)
Definition instanceof (other : Value) : JS bool :=
  match other with
  | VObj l =>
      do o <- load l;
      match o with
      | ORef _ => ret true
      | _ => ret false
      end
  | _ => ret false
  end.

(** [equals(other)]: [other instanceof Ref && this.value === other.value]. *)
Definition equals (this : loc) (other : Value) : JS bool :=
  do b <- instanceof other;
  if b then
    do v <- value this;
    match other with
    | VObj l => do v' <- value l; ret (String.eqb v v')
    | _ => stuck
    end
  else ret false.

(** [valueOf()]. *)
Definition valueOf (this : loc) : JS string := value this.

(** [inspect()]: the template [`Ref(${JSON.stringify(this.value)})`]. *)
Definition inspect (this : loc) : JS string :=
  do v <- Get (VObj this) "value";
  do json <- JSON_stringify v;
  do text <- ToString json;
  ret ("Ref(" +:+ text +:+ ")").

End Ref.

(** ** SetRef *)

Module SetRef.

(** [new SetRef(query)]. *)
Definition constructor (query : Value) : JS loc := alloc (OSetRef query).

(** [this.query] of a receiver that is a [SetRef]. *)
Definition query (this : loc) : JS Value :=
  do o <- load this;
  match o with
  | OSetRef q => ret q
  | _ => stuck
  end.

(** [toJSON()]: the object literal [{'@set': this.query}]. *)
Definition toJSON (this : loc) : JS loc :=
  do q <- query this;
  alloc (OObject [("@set", q)]).

(** [inspect()]: the template [`SetRef(${JSON.stringify(this.value)})`]. *)
Definition inspect (this : loc) : JS string :=
  do v <- Get (VObj this) "value";
  do json <- JSON_stringify v;
  do text <- ToString json;
  ret ("SetRef(" +:+ text +:+ ")").

End SetRef.

(** ** Page *)

(** A callback as [Array.prototype.map] calls it: with the element, its index
    and the array being traversed.  Callbacks are pure: they neither read nor
    change the store. *)
Definition Callback : Type := Value → nat → loc → Value.

(** A function of one parameter used as a callback ignores the index and the
    array. *)
Definition unary (f : Value → Value) : Callback := λ x _ _, f x.

(** [a.map(func)]: a new array; the receiver must be an array, any other
    value has no [map] method to call. *)
Definition Array_map (a : Value) (func : Callback) : JS loc :=
  match a with
  | VObj la =>
      do o <- load la;
      match o with
      | OArray elems => alloc (OArray (imap (λ i x, func x i la) elems))
      | _ => throw TypeError
      end
  | _ => throw TypeError
  end.

Module Page.

(** [new Page(data, before, after)]. *)
Definition constructor (data before after : Value) : JS loc :=
  alloc (OPage data before after).

(** [mapData(func)]. *)
Definition mapData (this : loc) (func : Callback) : JS loc :=
  do o <- load this;
  match o with
  | OPage data before after =>
      do data' <- Array_map data func;
      constructor (VObj data') before after
  | _ => stuck
  end.

(** [Page.fromRaw(object)]. *)
Definition fromRaw (object : Value) : JS loc :=
  do data <- Get object "data";
  do before <- Get object "before";
  do after <- Get object "after";
  constructor data before after.

End Page.

(** ** The host's Date

    The time arithmetic of ECMAScript, section "Time Values and Time Range"
    onwards: a time value counts milliseconds from 1970-01-01T00:00:00Z, in
    the proleptic Gregorian calendar and without leap seconds. *)

Definition msPerDay : Z := 86400000.

Definition Day (t : Z) : Z := t / msPerDay.
Definition HourFromTime (t : Z) : Z := (t / 3600000) mod 24.
Definition MinFromTime (t : Z) : Z := (t / 60000) mod 60.
Definition SecFromTime (t : Z) : Z := (t / 1000) mod 60.
Definition msFromTime (t : Z) : Z := t mod 1000.

(** The day number of the first day of a year. *)
Definition DayFromYear (y : Z) : Z :=
  365 * (y - 1970) + (y - 1969) / 4 - (y - 1901) / 100 + (y - 1601) / 400.

(** The year a day falls in: ECMAScript's "largest [y] such that
    [DayFromYear y] is at most the day", found next to the estimate that
    takes every year to last 146097/400 days. *)
Definition YearFromDay (day : Z) : Z :=
  let y := 1970 + (400 * day) / 146097 in
  if DayFromYear (y + 1) <=? day then y + 1
  else if day <? DayFromYear y then y - 1
  else y.

(** 1 in a leap year, 0 otherwise. *)
Definition InLeapYear (y : Z) : Z :=
  if (y mod 4 =? 0) && (negb (y mod 100 =? 0) || (y mod 400 =? 0))
  then 1 else 0.

(** The month (0 to 11) and the day of the month (1 to 31) of a day within
    its year, by the tables of [MonthFromTime] and [DateFromTime]. *)
Definition month_date (dwy leap : Z) : Z * Z :=
  if dwy <? 31 then (0, dwy + 1)
  else if dwy <? 59 + leap then (1, dwy - 30)
  else if dwy <? 90 + leap then (2, dwy - 58 - leap)
  else if dwy <? 120 + leap then (3, dwy - 89 - leap)
  else if dwy <? 151 + leap then (4, dwy - 119 - leap)
  else if dwy <? 181 + leap then (5, dwy - 150 - leap)
  else if dwy <? 212 + leap then (6, dwy - 180 - leap)
  else if dwy <? 243 + leap then (7, dwy - 211 - leap)
  else if dwy <? 273 + leap then (8, dwy - 242 - leap)
  else if dwy <? 304 + leap then (9, dwy - 272 - leap)
  else if dwy <? 334 + leap then (10, dwy - 303 - leap)
  else (11, dwy - 333 - leap).

Definition DayWithinYear (day : Z) : Z := day - DayFromYear (YearFromDay day).
Definition MonthFromDay (day : Z) : Z :=
  (month_date (DayWithinYear day) (InLeapYear (YearFromDay day))).1.
Definition DateFromDay (day : Z) : Z :=
  (month_date (DayWithinYear day) (InLeapYear (YearFromDay day))).2.

Definition YearFromTime (t : Z) : Z := YearFromDay (Day t).
Definition MonthFromTime (t : Z) : Z := MonthFromDay (Day t).
Definition DateFromTime (t : Z) : Z := DateFromDay (Day t).

(** The [width] low decimal digits of a non-negative number, zero-padded. *)
Definition digit (n : Z) : ascii := ascii_of_nat (48 + Z.to_nat (n mod 10)).

Fixpoint digits (width : nat) (n : Z) : string :=
  match width with
  | O => EmptyString
  | S w => digits w (n / 10) +:+ String (digit n) EmptyString
  end.

(** Years 0 to 9999 print as four digits, all others as a sign and six. *)
Definition year_string (y : Z) : string :=
  if (0 <=? y) && (y <=? 9999) then digits 4 y
  else (if y <? 0 then "-" else "+") +:+ digits 6 (Z.abs y).

(** The calendar date [YYYY-MM-DD] of a day number; months print from 01. *)
Definition date_string (day : Z) : string :=
  year_string (YearFromDay day) +:+ "-" +:+
  digits 2 (MonthFromDay day + 1) +:+ "-" +:+
  digits 2 (DateFromDay day).

Definition time_string (t : Z) : string :=
  digits 2 (HourFromTime t) +:+ ":" +:+ digits 2 (MinFromTime t) +:+ ":" +:+
  digits 2 (SecFromTime t) +:+ "." +:+ digits 3 (msFromTime t).

(** The ISO-8601 form of a finite time value. *)
Definition iso_string (t : Z) : string :=
  date_string (Day t) +:+ "T" +:+ time_string t +:+ "Z".

(** [value instanceof Date]. *)
Definition instanceof_Date (value : Value) : JS bool :=
  match value with
  | VObj l =>
      do o <- load l;
      match o with
      | ODate _ => ret true
      | _ => ret false
      end
  | _ => ret false
  end.

(** [value.toISOString()] on a value that is a [Date]: a [RangeError] when
    the time value is not finite. *)
Definition Date_toISOString (this : Value) : JS string :=
  match this with
  | VObj l =>
      do o <- load l;
      match o with
      | ODate (Some t) => ret (iso_string t)
      | ODate None => throw RangeError
      | _ => stuck
      end
  | _ => stuck
  end.

(** *** Building and parsing dates *)

(** The day within its year on which a month (0 to 11) starts; 12 stands for
    the start of the next year. *)
Definition month_start (m leap : Z) : Z :=
  if m <=? 0 then 0
  else if m =? 1 then 31
  else if m =? 2 then 59 + leap
  else if m =? 3 then 90 + leap
  else if m =? 4 then 120 + leap
  else if m =? 5 then 151 + leap
  else if m =? 6 then 181 + leap
  else if m =? 7 then 212 + leap
  else if m =? 8 then 243 + leap
  else if m =? 9 then 273 + leap
  else if m =? 10 then 304 + leap
  else if m =? 11 then 334 + leap
  else 365 + leap.

Definition DaysInMonth (m leap : Z) : Z :=
  month_start (m + 1) leap - month_start m leap.

(** [MakeDay], [MakeTime], [MakeDate] and [TimeClip]: the day number of a
    year, month (from 0) and day of the month; the milliseconds of a time of
    day; the time value of both; and the range of time values, outside of
    which a date is invalid. *)
Definition MakeDay (year month date : Z) : Z :=
  let ym := year + month / 12 in
  let mn := month mod 12 in
  DayFromYear ym + month_start mn (InLeapYear ym) + date - 1.

Definition MakeTime (hour min sec ms : Z) : Z :=
  hour * 3600000 + min * 60000 + sec * 1000 + ms.

Definition MakeDate (day time : Z) : Z := day * msPerDay + time.

Definition TimeClip (t : Z) : option Z :=
  if Z.abs t <=? 8640000000000000 then Some t else None.

Definition digit_of (c : ascii) : option Z :=
  let n := Z.of_nat (nat_of_ascii c) in
  if (48 <=? n) && (n <=? 57) then Some (n - 48) else None.

Fixpoint number_from (acc : Z) (s : string) : option Z :=
  match s with
  | EmptyString => Some acc
  | String c s' =>
      match digit_of c with
      | Some d => number_from (10 * acc + d) s'
      | None => None
      end
  end.

(** A field of exactly [width] digits at the start of a string, with what
    follows it. *)
Definition field (width : nat) (s : string) : option (Z * string) :=
  if (width <=? String.length s)%nat then
    match number_from 0 (String.substring 0 width s) with
    | Some n =>
        Some (n, String.substring width (String.length s - width) s)
    | None => None
    end
  else None.

(** The character [c] at the start of a string, with what follows it. *)
Definition expect (c : ascii) (s : string) : option string :=
  match s with
  | String c' s' => if Ascii.eqb c' c then Some s' else None
  | EmptyString => None
  end.

(** A year of four digits, or of a sign and six digits; minus zero is not a
    year. *)
Definition parse_year (s : string) : option (Z * string) :=
  match s with
  | String c s' =>
      if Ascii.eqb c "+" then field 6 s'
      else if Ascii.eqb c "-" then
        match field 6 s' with
        | Some (y, rest) => if y =? 0 then None else Some (- y, rest)
        | None => None
        end
      else field 4 s
  | EmptyString => None
  end.

(** [YYYY-MM-DD] at the start of a string: its day number. *)
Definition parse_date (s : string) : option (Z * string) :=
  '(y, s) ← parse_year s;
  s ← expect "-" s;
  '(m, s) ← field 2 s;
  s ← expect "-" s;
  '(d, s) ← field 2 s;
  if (1 <=? m) && (m <=? 12) && (1 <=? d) &&
     (d <=? DaysInMonth (m - 1) (InLeapYear y))
  then Some (MakeDay y (m - 1) d, s) else None.

(** [HH:mm:ss.sssZ], to the end of the string: its milliseconds. *)
Definition parse_time (s : string) : option Z :=
  '(hh, s) ← field 2 s;
  s ← expect ":" s;
  '(mm, s) ← field 2 s;
  s ← expect ":" s;
  '(ss, s) ← field 2 s;
  s ← expect "." s;
  '(ms, s) ← field 3 s;
  s ← expect "Z" s;
  if String.eqb s EmptyString && (hh <=? 23) && (mm <=? 59) && (ss <=? 59)
  then Some (MakeTime hh mm ss ms) else None.

(** [Date.parse] on the two forms of the ECMAScript date-time format that
    this module produces: the calendar date alone, read as midnight UTC, and
    the full form in UTC with milliseconds.  [None] stands for every other
    string: other forms of the format, and strings outside it, whose reading
    is the host's own. *)
Definition Date_parse (s : string) : option Z :=
  '(day, rest) ← parse_date s;
  match rest with
  | EmptyString => Some (MakeDate day 0)
  | String c rest' =>
      if Ascii.eqb c "T" then
        time ← parse_time rest'; Some (MakeDate day time)
      else None
  end.

(** [new Date(value)] for a string of these forms, for [undefined], which
    gives an invalid date, and for a Date, which is copied. *)
Definition Date_constructor (value : Value) : JS loc :=
  match value with
  | VStr s =>
      match Date_parse s with
      | Some t => alloc (ODate (TimeClip t))
      | None => stuck
      end
  | VUndefined => alloc (ODate None)
  | VObj l =>
      do o <- load l;
      match o with
      | ODate tv => alloc (ODate tv)
      | _ => stuck
      end
  | _ => stuck
  end.

(** ** FaunaTime *)

Module FaunaTime.

(** [new FaunaTime(value)].  Of the values here only strings have an
    [endsWith] method; calling it on anything else is a [TypeError]. *)
Definition constructor (value : Value) : JS loc :=
  do is_date <- instanceof_Date value;
  do value' <-
    (if is_date then Date_toISOString value
     else
       match value with
       | VStr s =>
           if negb (endsWith s "Z")
           then throw (InvalidValue ("Only allowed timezone is 'Z', got: " +:+ s))
           else ret s
       | _ => throw TypeError
       end);
  alloc (OFaunaTime value').

(** [this.value] of a receiver that is a [FaunaTime]. *)
Definition value (this : loc) : JS string :=
  do o <- load this;
  match o with
  | OFaunaTime v => ret v
  | _ => stuck
  end.

(** [toJSON()]: the object literal [{'@ts': this.value}]. *)
Definition toJSON (this : loc) : JS loc :=
  do v <- value this;
  alloc (OObject [("@ts", VStr v)]).

(** [get date()]. *)
Definition date (this : loc) : JS loc :=
  do v <- value this;
  Date_constructor (VStr v).

End FaunaTime.

(** ** FaunaDate *)

Module FaunaDate.

(** [new FaunaDate(value)]. *)
Definition constructor (value : Value) : JS loc :=
  do is_date <- instanceof_Date value;
  do value' <-
    (if is_date then
       do iso <- Date_toISOString value;
       ret (VStr (String_slice 0 10 iso))
     else ret value);
  alloc (OFaunaDate value').

(** [this.value] of a receiver that is a [FaunaDate]. *)
Definition value (this : loc) : JS Value :=
  do o <- load this;
  match o with
  | OFaunaDate v => ret v
  | _ => stuck
  end.

(** [toJSON()]: the object literal [{'@date': this.value}]. *)
Definition toJSON (this : loc) : JS loc :=
  do v <- value this;
  alloc (OObject [("@date", v)]).

(** [get date()]. *)
Definition date (this : loc) : JS loc :=
  do v <- value this;
  Date_constructor v.

End FaunaDate.

(** ** Notions used in the statements *)

(** Whether a character occurs in a string. *)
Fixpoint occurs (c : ascii) (s : string) : bool :=
  match s with
  | EmptyString => false
  | String c' s' => Ascii.eqb c' c || occurs c s'
  end.

(** The first and the last character. *)
Definition first_char (s : string) : option ascii :=
  match s with
  | EmptyString => None
  | String c _ => Some c
  end.

Fixpoint last_char (s : string) : option ascii :=
  match s with
  | EmptyString => None
  | String c EmptyString => Some c
  | String _ s' => last_char s'
  end.

(** A constructor argument and its string form: a string stands for itself,
    a [Ref] for its [value]. *)
Inductive segment (h : heap) : Value → string → Prop :=
  | segment_string (s : string) : segment h (VStr s) s
  | segment_ref (r : loc) (v : string) :
      h !! r = Some (ORef v) → segment h (VObj r) v.

(** A value that does not point outside the store. *)
Definition valid (h : heap) (v : Value) : Prop :=
  match v with
  | VObj l => is_Some (h !! l)
  | _ => True
  end.

(** The object literal with the single property [tag]. *)
Definition tagged (tag : string) (payload : Value) : Obj :=
  OObject [(tag, payload)].

(** The characters that [JSON.stringify] escapes: the quote, the backslash
    and the 32 control characters. *)
Definition specials : list ascii :=
  quote_char :: backslash :: (ascii_of_nat <$> seq 0 32).

(** A computation that only reads: it leaves the store as it found it. *)
Definition reads {A} (m : JS A) : Prop := ∀ h, (m h).2 = h.

(** A computation that never changes or removes an object: whatever the
    store held before, it holds after. *)
Definition preserves {A} (m : JS A) : Prop := ∀ h, h ⊆ (m h).2.

(** A constructor argument with [undefined] and [null] replaced by the empty
    string. *)
Definition blank (v : Value) : Value :=
  match v with
  | VUndefined | VNull => VStr EmptyString
  | _ => v
  end.

(** Whether a value is a reference to an object of a class. *)
Definition is_Date (h : heap) (v : Value) : Prop :=
  ∃ l tv, v = VObj l ∧ h !! l = Some (ODate tv).

Definition is_Array (h : heap) (v : Value) : Prop :=
  ∃ l xs, v = VObj l ∧ h !! l = Some (OArray xs).

(** An object of one of the classes of this module, or a Date: not an
    array and not an object literal.  None of these classes has a [map] or
    an [endsWith] method. *)
Definition class_instance (o : Obj) : Prop :=
  match o with
  | OArray _ | OObject _ => False
  | _ => True
  end.

(** Taking the class of a Ref [n] times over. *)
Fixpoint class_iter (n : nat) (this : loc) : JS loc :=
  match n with
  | O => ret this
  | S n' => do c <- Ref.class this; class_iter n' c
  end.

(** * Properties *)

#[local] Arguments String.append : simpl nomatch.

(** ** Strings *)

Section strings.

Implicit Types (s t u : string) (c sep : ascii).

Lemma append_nil_r s : s +:+ EmptyString = s.
Proof. induction s as [|c s IH]; simpl; [done | by rewrite IH]. Qed.

Lemma append_assoc s t u : (s +:+ t) +:+ u = s +:+ t +:+ u.
Proof. induction s as [|c s IH]; simpl; [done | by rewrite IH]. Qed.

Lemma length_append s t :
  String.length (s +:+ t) = (String.length s + String.length t)%nat.
Proof. induction s as [|c s IH]; simpl; [done | by rewrite IH]. Qed.

Lemma substring_0_length s : String.substring 0 (String.length s) s = s.
Proof. induction s as [|c s IH]; simpl; [done | by rewrite IH]. Qed.

Lemma substring_prefix s t :
  String.substring 0 (String.length s) (s +:+ t) = s.
Proof.
  induction s as [|c s IH]; simpl; [by destruct t | by rewrite IH].
Qed.

Lemma substring_suffix s t :
  String.substring (String.length s) (String.length t) (s +:+ t) = t.
Proof.
  induction s as [|c s IH]; simpl; [apply substring_0_length | done].
Qed.

Lemma split_not_nil sep s : split sep s ≠ [].
Proof.
  destruct s as [|c s]; simpl; [done |].
  destruct (Ascii.eqb c sep); [done |]. by destruct (split sep s).
Qed.

Lemma split_length_pos sep s : (1 ≤ length (split sep s))%nat.
Proof.
  pose proof (split_not_nil sep s). destruct (split sep s); simpl; [done | lia].
Qed.

(** Joining the segments with the separator gives the string back. *)
Lemma join_split sep s : join (String sep EmptyString) (split sep s) = s.
Proof.
  induction s as [|c s IH]; simpl; [done |].
  destruct (Ascii.eqb_spec c sep) as [->|Hne].
  - pose proof (split_not_nil sep s) as Hnil.
    destruct (split sep s) as [|p ps] eqn:Hs; [done |].
    simpl in *. by rewrite IH.
  - pose proof (split_not_nil sep s) as Hnil.
    destruct (split sep s) as [|p ps] eqn:Hs; [done |].
    destruct ps as [|q qs]; simpl in *; by rewrite IH.
Qed.

(** A string without the separator is its own single segment. *)
Lemma split_free sep s : occurs sep s = false → split sep s = [s].
Proof.
  induction s as [|c s IH]; simpl; [done |].
  intros [Hc Hs]%orb_false_iff. rewrite Hc, (IH Hs). done.
Qed.

(** Splitting [s ++ sep ++ t] when the separator does not occur in [t]. *)
Lemma split_snoc sep s t :
  occurs sep t = false →
  split sep (s +:+ String sep t) = split sep s ++ [t].
Proof.
  intros Ht. induction s as [|c s IH]; simpl.
  - by rewrite Ascii.eqb_refl, (split_free _ _ Ht).
  - rewrite IH. destruct (Ascii.eqb c sep); [done |].
    pose proof (split_not_nil sep s). by destruct (split sep s).
Qed.

Lemma split_single_iff sep s :
  length (split sep s) = 1%nat ↔ occurs sep s = false.
Proof.
  split; [| by intros ->%split_free].
  induction s as [|c s IH]; simpl; [done |].
  pose proof (split_length_pos sep s) as Hpos.
  destruct (Ascii.eqb c sep); simpl; [lia |].
  destruct (split sep s) as [|p ps]; simpl in *; [lia | done].
Qed.

(** A string in which the separator occurs decomposes at its last
    occurrence. *)
Lemma occurs_last sep s :
  occurs sep s = true →
  ∃ u t, s = u +:+ String sep t ∧ occurs sep t = false.
Proof.
  induction s as [|c s IH]; simpl; [done |].
  destruct (occurs sep s) eqn:Hs.
  - intros _. destruct IH as (u & t & -> & Ht); [done |].
    by exists (String c u), t.
  - rewrite orb_false_r. intros ->%Ascii.eqb_eq. by exists EmptyString, s.
Qed.

(** The decomposition at the last separator is unique. *)
Lemma last_segment_unique sep u t u' t' :
  u +:+ String sep t = u' +:+ String sep t' →
  occurs sep t = false → occurs sep t' = false →
  u = u' ∧ t = t'.
Proof.
  intros Heq Ht Ht'.
  assert (split sep u ++ [t] = split sep u' ++ [t']) as Hsp.
  { by rewrite <-!split_snoc, Heq. }
  apply app_inj_tail in Hsp as [Hu ->]. split; [| done].
  by rewrite <-(join_split sep u), Hu, join_split.
Qed.

(** [split], [join], [slice] and [endsWith] on the cases where their host
    definitions are least obvious. *)
Example host_functions_examples :
  split "/" EmptyString = [EmptyString] ∧
  split "/" "/" = [EmptyString; EmptyString] ∧
  split "/" "a/b/" = ["a"; "b"; EmptyString] ∧
  split "/" "classes/x" = ["classes"; "x"] ∧
  join "/" [] = EmptyString ∧
  join "/" ["a"] = "a" ∧
  join "/" ["a"; EmptyString; "c"] = "a//c" ∧
  Array_slice 0 2 ["a"; "b"; "c"] = ["a"; "b"] ∧
  Array_slice (-2) 5 ["a"; "b"; "c"] = ["b"; "c"] ∧
  String_slice 0 10 "2023-06-15T23:59:59.000Z" = "2023-06-15" ∧
  String_slice 0 10 "short" = "short" ∧
  endsWith "12:00Z" "Z" = true ∧
  endsWith "12:00+01:00" "Z" = false ∧
  endsWith EmptyString "Z" = false.
Proof. repeat split. Qed.

End strings.

(** ** The store *)

Section store.

Implicit Types (h : heap) (l r : loc) (o : Obj).

Lemma fresh_unused h : h !! fresh (dom h) = None.
Proof. apply not_elem_of_dom, is_fresh. Qed.

Lemma alloc_new o h :
  ∃ r, h !! r = None ∧ alloc o h = (Normal r, <[r := o]> h).
Proof. exists (fresh (dom h)). split; [apply fresh_unused | done]. Qed.

(** Allocation leaves every object of the store where it was. *)
Lemma insert_unused_preserves h r o l o' :
  h !! r = None → h !! l = Some o' → <[r := o]> h !! l = Some o'.
Proof.
  intros Hr Hl. rewrite lookup_insert_ne; [done |]. intros ->. congruence.
Qed.

Lemma load_Some h l o : h !! l = Some o → load l h = (Normal o, h).
Proof. unfold load. by intros ->. Qed.

(** The string form of a Ref is what its [toString] returns. *)
Lemma ToString_Ref h r v :
  h !! r = Some (ORef v) → ToString (VObj r) h = Ref.toString r h.
Proof.
  intros Hr. unfold ToString, Ref.toString, Ref.value, bind.
  by rewrite (load_Some _ _ _ Hr).
Qed.

Lemma Ref_value_Some h l v :
  h !! l = Some (ORef v) → Ref.value l h = (Normal v, h).
Proof. intros Hl. unfold Ref.value, bind. by rewrite (load_Some _ _ _ Hl). Qed.

End store.

(** ** Arrays *)

Lemma Array_slice_init {A} (l : list A) (x : A) :
  Array_slice 0 (Z.of_nat (length (l ++ [x])) - 1) (l ++ [x]) = l.
Proof.
  unfold Array_slice, slice_range. rewrite length_app. simpl.
  replace (0 <? 0) with false by done.
  destruct (Z.ltb_spec (Z.of_nat (length l + 1) - 1) 0) as [Hneg|_]; [lia |].
  rewrite Z.min_l by lia. rewrite Z.min_l by lia.
  replace (Z.to_nat (Z.of_nat (length l + 1) - 1 - 0)) with (length l) by lia.
  change (Z.to_nat 0) with O. rewrite drop_0. apply take_app_length.
Qed.

Lemma lookup_last_index {A} (l : list A) (x : A) :
  (l ++ [x]) !! (length (l ++ [x]) - 1)%nat = Some x.
Proof.
  rewrite length_app. simpl.
  replace (length l + 1 - 1)%nat with (length l) by lia.
  by rewrite list_lookup_middle.
Qed.

(** A value of two or more segments, cut at its last slash. *)
Lemma segments_snoc (v : string) :
  (2 ≤ length (split "/" v))%nat →
  ∃ c i, v = c +:+ "/" +:+ i ∧ occurs "/" i = false ∧
         split "/" v = split "/" c ++ [i].
Proof.
  intros Hlen. destruct (occurs "/" v) eqn:Hocc.
  - destruct (occurs_last _ _ Hocc) as (c & i & -> & Hi).
    exists c, i. split_and!; [done | done | by apply split_snoc].
  - apply split_single_iff in Hocc. lia.
Qed.

(** ** Ref *)

Section Ref_facts.

Implicit Types (h : heap) (this r : loc) (v c i : string).

Lemma join_elements_segments h (args : list Value) (strs : list string) :
  Forall2 (segment h) args strs →
  mapM join_element args h = (Normal strs, h).
Proof.
  induction 1 as [|a s args strs Ha _ IH]; simpl; [done |].
  unfold bind. destruct Ha as [s|r v Hr]; simpl.
  - unfold ret at 1. by rewrite IH.
  - unfold bind. rewrite (load_Some _ _ _ Hr). unfold ret at 1.
    by rewrite IH.
Qed.

Lemma constructor_segments h (args : list Value) (strs : list string) :
  Forall2 (segment h) args strs →
  ∃ r, h !! r = None ∧
       Ref.constructor args h = (Normal r, <[r := ORef (join "/" strs)]> h).
Proof.
  intros Hargs. unfold Ref.constructor, Array_join, bind.
  rewrite (join_elements_segments _ _ _ Hargs). apply alloc_new.
Qed.

Lemma class_single h this v :
  h !! this = Some (ORef v) → length (split "/" v) = 1%nat →
  Ref.class this h = (Normal this, h).
Proof.
  intros Hthis Hlen. unfold Ref.class, bind.
  rewrite (Ref_value_Some _ _ _ Hthis), Hlen. done.
Qed.

Lemma class_snoc h this c i :
  h !! this = Some (ORef (c +:+ "/" +:+ i)) → occurs "/" i = false →
  ∃ r, h !! r = None ∧
       Ref.class this h = (Normal r, <[r := ORef c]> h).
Proof.
  intros Hthis Hi. unfold Ref.class, bind.
  rewrite (Ref_value_Some _ _ _ Hthis), (split_snoc _ _ _ Hi).
  pose proof (split_length_pos "/" c) as Hpos.
  replace (length (split "/" c ++ [i]) =? 1)%nat with false
    by (symmetry; apply Nat.eqb_neq; rewrite length_app; simpl; lia).
  rewrite Array_slice_init, (join_split "/" c).
  apply (constructor_segments h [VStr c] [c]).
  repeat constructor.
Qed.

Lemma id_single h this v :
  h !! this = Some (ORef v) → length (split "/" v) = 1%nat →
  Ref.id this h = (Throw (InvalidValue "The Ref does not have an id."), h).
Proof.
  intros Hthis Hlen. unfold Ref.id, bind.
  rewrite (Ref_value_Some _ _ _ Hthis), Hlen. done.
Qed.

Lemma id_snoc h this c i :
  h !! this = Some (ORef (c +:+ "/" +:+ i)) → occurs "/" i = false →
  Ref.id this h = (Normal (VStr i), h).
Proof.
  intros Hthis Hi. unfold Ref.id, bind.
  rewrite (Ref_value_Some _ _ _ Hthis), (split_snoc _ _ _ Hi).
  pose proof (split_length_pos "/" c) as Hpos.
  replace (length (split "/" c ++ [i]) =? 1)%nat with false
    by (symmetry; apply Nat.eqb_neq; rewrite length_app; simpl; lia).
  by rewrite lookup_last_index.
Qed.

End Ref_facts.

(** C2. A Ref whose value has one segment is its own class: the getter
    returns the receiver and allocates nothing.  A Ref whose value has two or
    more segments has as class a newly allocated Ref, whose value is the
    original value without its last slash and last segment; the receiver
    stays as it was. *)
Theorem Ref_class_drops_last_segment (h : heap) (this : loc) (v : string) :
  h !! this = Some (ORef v) →
  (length (split "/" v) = 1%nat → Ref.class this h = (Normal this, h)) ∧
  ((2 ≤ length (split "/" v))%nat →
   ∃ c i r,
     v = c +:+ "/" +:+ i ∧ occurs "/" i = false ∧
     split "/" v = split "/" c ++ [i] ∧
     h !! r = None ∧
     Ref.class this h = (Normal r, <[r := ORef c]> h) ∧
     <[r := ORef c]> h !! this = Some (ORef v)).
Proof.
  intros Hthis. split; [by apply class_single |].
  intros (c & i & Hv & Hi & Hsplit)%segments_snoc.
  destruct (class_snoc h this c i) as (r & Hr & Hclass); [by subst | done |].
  exists c, i, r. split_and!; try done.
  by apply insert_unused_preserves.
Qed.

Lemma Ref_class_drops_last_segment_witness :
  let h1 : heap := {[ 1%positive := ORef "databases" ]} in
  let h2 : heap := {[ 1%positive := ORef "databases/prydain" ]} in
  (h1 !! 1%positive = Some (ORef "databases") ∧
   Ref.class 1%positive h1 = (Normal 1%positive, h1)) ∧
  (h2 !! 1%positive = Some (ORef "databases/prydain") ∧
   ∃ c i r,
     "databases/prydain" = c +:+ "/" +:+ i ∧ occurs "/" i = false ∧
     split "/" "databases/prydain" = split "/" c ++ [i] ∧
     h2 !! r = None ∧
     Ref.class 1%positive h2 = (Normal r, <[r := ORef c]> h2) ∧
     <[r := ORef c]> h2 !! 1%positive = Some (ORef "databases/prydain")).
Proof.
  intros h1 h2. split; (split; [reflexivity |]).
  - apply (Ref_class_drops_last_segment h1 1%positive "databases");
      reflexivity.
  - apply (Ref_class_drops_last_segment h2 1%positive "databases/prydain");
      [reflexivity | vm_compute; lia].
Defined.

(** C3. On a Ref, the [id] getter throws [InvalidValue] exactly when the
    value has a single segment; otherwise it returns the last segment, as a
    string.  In both cases the store, and with it the Ref, is left as it
    was. *)
Theorem Ref_id_fails_iff_single_segment (h : heap) (this : loc) (v : string) :
  h !! this = Some (ORef v) →
  (Ref.id this h).2 = h ∧
  ((∃ msg, (Ref.id this h).1 = Throw (InvalidValue msg)) ↔
   length (split "/" v) = 1%nat) ∧
  (length (split "/" v) ≠ 1%nat →
   ∃ c i,
     v = c +:+ "/" +:+ i ∧ occurs "/" i = false ∧
     split "/" v = split "/" c ++ [i] ∧
     (Ref.id this h).1 = Normal (VStr i)).
Proof.
  intros Hthis. pose proof (split_length_pos "/" v) as Hpos.
  destruct (decide (length (split "/" v) = 1%nat)) as [Hone|Hmore].
  - rewrite (id_single _ _ _ Hthis Hone). simpl. split_and!; [done | | done].
    split; [done | by eexists].
  - destruct (segments_snoc v) as (c & i & -> & Hi & Hsplit); [lia |].
    rewrite (id_snoc _ _ _ _ Hthis Hi). simpl. split_and!; [done | |].
    + split; [by intros [msg ?] | done].
    + intros _. by exists c, i.
Qed.

Lemma Ref_id_fails_iff_single_segment_witness :
  let h1 : heap := {[ 1%positive := ORef "databases" ]} in
  let h2 : heap := {[ 1%positive := ORef "databases/prydain" ]} in
  (h1 !! 1%positive = Some (ORef "databases") ∧
   ∃ msg, (Ref.id 1%positive h1).1 = Throw (InvalidValue msg)) ∧
  (h2 !! 1%positive = Some (ORef "databases/prydain") ∧
   ∃ c i,
     "databases/prydain" = c +:+ "/" +:+ i ∧ occurs "/" i = false ∧
     split "/" "databases/prydain" = split "/" c ++ [i] ∧
     (Ref.id 1%positive h2).1 = Normal (VStr i)).
Proof.
  intros h1 h2. split; (split; [reflexivity |]).
  - apply (Ref_id_fails_iff_single_segment h1 1%positive "databases");
      reflexivity.
  - apply (Ref_id_fails_iff_single_segment h2 1%positive "databases/prydain");
      [reflexivity | vm_compute; lia].
Defined.

(** The scenario of the specification, in the empty store:
    [new Ref('databases', 'prydain')] has the value ['databases/prydain'], the
    id ['prydain'] and as class a Ref of value ['databases']. *)
Example Ref_scenario :
  ∃ r k h1 h2,
    Ref.constructor [VStr "databases"; VStr "prydain"] ∅ = (Normal r, h1) ∧
    Ref.value r h1 = (Normal "databases/prydain", h1) ∧
    Ref.id r h1 = (Normal (VStr "prydain"), h1) ∧
    Ref.class r h1 = (Normal k, h2) ∧
    Ref.value k h2 = (Normal "databases", h2) ∧
    Ref.class k h2 = (Normal k, h2) ∧
    r ≠ k.
Proof. repeat eexists; [vm_compute; reflexivity.. | done]. Qed.

(** C7. The constructor stores its segments joined with ['/']: for string
    arguments, [value] is their [join]; in general a string contributes
    itself and a Ref its own [value].  The result is a new object. *)
Theorem Ref_constructor_joins_segments (h : heap) :
  (∀ S : list string,
     ∃ r, h !! r = None ∧
          Ref.constructor (VStr <$> S) h
          = (Normal r, <[r := ORef (join "/" S)]> h)) ∧
  (∀ (args : list Value) (strs : list string),
     Forall2 (segment h) args strs →
     ∃ r, h !! r = None ∧
          Ref.constructor args h
          = (Normal r, <[r := ORef (join "/" strs)]> h)).
Proof.
  split; [| apply constructor_segments].
  intros S. apply constructor_segments.
  induction S as [|s S IH]; simpl; constructor; [constructor | done].
Qed.

Lemma Ref_constructor_joins_segments_witness :
  let h : heap := {[ 1%positive := ORef "databases" ]} in
  Forall2 (segment h) [VObj 1%positive; VStr "prydain"]
    ["databases"; "prydain"] ∧
  ∃ r, h !! r = None ∧
       Ref.constructor [VObj 1%positive; VStr "prydain"] h
       = (Normal r, <[r := ORef "databases/prydain"]> h).
Proof.
  intros h.
  assert (Forall2 (segment h) [VObj 1%positive; VStr "prydain"]
            ["databases"; "prydain"]) as Hsegs.
  { constructor; [by apply segment_ref |].
    constructor; [apply segment_string | constructor]. }
  split; [exact Hsegs |].
  exact (proj2 (Ref_constructor_joins_segments h) _ _ Hsegs).
Defined.

(** ** Slashes at the ends of a joined value *)

Section edges.

Implicit Types (s t : string) (strs : list string).

Lemma first_char_append s t :
  first_char (s +:+ t) = from_option Some (first_char t) (first_char s).
Proof. by destruct s. Qed.

Lemma last_char_cons (c : ascii) s :
  last_char (String c s) = from_option Some (Some c) (last_char s).
Proof.
  destruct s as [|c' s]; [done |]. simpl. revert c'.
  induction s as [|c'' s IH]; intros c'; [done |]. apply IH.
Qed.

Lemma last_char_append s t :
  last_char (s +:+ t) = from_option Some (last_char s) (last_char t).
Proof.
  induction s as [|c s IH]; [simpl; by destruct (last_char t) |].
  change (String c s +:+ t) with (String c (s +:+ t)).
  rewrite !last_char_cons, IH. by destruct (last_char t), (last_char s).
Qed.

Lemma first_char_None s : first_char s = None → s = EmptyString.
Proof. by destruct s. Qed.

Lemma last_char_None s : last_char s = None → s = EmptyString.
Proof.
  induction s as [|c s IH]; simpl; [done |]. destruct s; [done |].
  intros Hs. by specialize (IH Hs).
Qed.

Lemma join_cons2 s t strs :
  join "/" (s :: t :: strs) = s +:+ "/" +:+ join "/" (t :: strs).
Proof. done. Qed.

Lemma join_leading_slash strs :
  first_char (join "/" strs) = Some "/"%char ↔
  ∃ s, head strs = Some s ∧
       (first_char s = Some "/"%char ∨
        (s = EmptyString ∧ (2 ≤ length strs)%nat)).
Proof.
  destruct strs as [|s [|t strs]].
  - simpl. split; [done | by intros (s & ? & _)].
  - simpl. split.
    + intros Hs. exists s. by split; [| left].
    + intros (s' & [= <-] & [Hs | [_ Hlen]]); [done | lia].
  - rewrite join_cons2, first_char_append. simpl. split.
    + intros Hs. exists s. split; [done |].
      destruct (first_char s) eqn:Hfc; simpl in Hs; [by left |].
      right. split; [by apply first_char_None | lia].
    + intros (s' & [= <-] & [-> | [-> _]]); done.
Qed.

Lemma join_trailing_slash strs :
  last_char (join "/" strs) = Some "/"%char ↔
  ∃ t, last strs = Some t ∧
       (last_char t = Some "/"%char ∨
        (t = EmptyString ∧ (2 ≤ length strs)%nat)).
Proof.
  induction strs as [|s [|t strs] IH].
  - simpl. split; [done | by intros (s & ? & _)].
  - simpl. split.
    + intros Hs. exists s. by split; [| left].
    + intros (s' & [= <-] & [Hs | [_ Hlen]]); [done | lia].
  - rewrite join_cons2, !last_char_append.
    change (last (s :: t :: strs)) with (last (t :: strs)).
    destruct (last_char (join "/" (t :: strs))) as [c|] eqn:Hlast; simpl.
    + rewrite IH. split.
      * intros (u & Hu & Hcase). exists u. split; [done |].
        destruct Hcase as [Hs | [Hu0 Hlen]]; [by left |].
        right. split; [done | simpl; lia].
      * intros (u & Hu & Hcase). exists u. split; [done |].
        destruct Hcase as [Hs | [Hu0 Hlen]]; [by left |].
        destruct strs as [|t' strs].
        { simpl in Hu, Hlast. injection Hu as ->. by subst. }
        right. split; [done | simpl; lia].
    + apply last_char_None in Hlast.
      destruct strs as [|t' strs].
      * simpl in Hlast. subst t. split; [| done].
        intros _. exists EmptyString. split; [done |].
        right. split; [done | simpl; lia].
      * rewrite join_cons2 in Hlast. by destruct t.
Qed.

End edges.

(** C1, as the code has it.  The constructor neither adds nor removes a
    slash at the ends of the value: the value starts with a slash exactly when
    the first segment does, or is empty and followed by another segment; it
    ends with a slash exactly when the last segment does, or is empty and
    preceded by another segment. *)
Theorem Ref_value_edge_slashes
    (h : heap) (args : list Value) (strs : list string) :
  Forall2 (segment h) args strs →
  ∃ r v,
    h !! r = None ∧
    Ref.constructor args h = (Normal r, <[r := ORef v]> h) ∧
    (first_char v = Some "/"%char ↔
     ∃ s, head strs = Some s ∧
          (first_char s = Some "/"%char ∨
           (s = EmptyString ∧ (2 ≤ length strs)%nat))) ∧
    (last_char v = Some "/"%char ↔
     ∃ t, last strs = Some t ∧
          (last_char t = Some "/"%char ∨
           (t = EmptyString ∧ (2 ≤ length strs)%nat))).
Proof.
  intros Hsegs.
  destruct (constructor_segments h args strs Hsegs) as (r & Hr & Hnew).
  exists r, (join "/" strs).
  split_and!; [done | done | apply join_leading_slash | apply join_trailing_slash].
Qed.

Lemma Ref_value_edge_slashes_witness :
  Forall2 (segment (∅ : heap)) [VStr "databases"; VStr "prydain"]
    ["databases"; "prydain"] ∧
  ∃ r v,
    (∅ : heap) !! r = None ∧
    Ref.constructor [VStr "databases"; VStr "prydain"] ∅
    = (Normal r, <[r := ORef v]> ∅) ∧
    (first_char v = Some "/"%char ↔
     ∃ s, head ["databases"; "prydain"] = Some s ∧
          (first_char s = Some "/"%char ∨
           (s = EmptyString ∧ (2 ≤ length ["databases"; "prydain"])%nat))) ∧
    (last_char v = Some "/"%char ↔
     ∃ t, last ["databases"; "prydain"] = Some t ∧
          (last_char t = Some "/"%char ∨
           (t = EmptyString ∧ (2 ≤ length ["databases"; "prydain"])%nat))).
Proof.
  assert (Forall2 (segment (∅ : heap)) [VStr "databases"; VStr "prydain"]
            ["databases"; "prydain"]) as Hsegs.
  { repeat constructor. }
  split; [exact Hsegs |].
  exact (Ref_value_edge_slashes ∅ _ _ Hsegs).
Defined.

(** C1 as stated fails.  An empty segment at either end makes the join
    itself put a slash there, and a segment's own slash is kept:
    [new Ref('', 'a')] and [new Ref('/a')] both store ['/a'], and
    [new Ref('a', '')] stores ['a/']. *)
Lemma Ref_value_edge_slashes_counterexample :
  ¬ (∀ (h : heap) (args : list Value) (r : loc) (h' : heap) (v : string),
       Ref.constructor args h = (Normal r, h') →
       h' !! r = Some (ORef v) →
       first_char v ≠ Some "/"%char ∧ last_char v ≠ Some "/"%char).
Proof.
  intros Hclaim.
  destruct (Hclaim ∅ [VStr EmptyString; VStr "a"] (fresh (dom (∅ : heap)))
              (<[fresh (dom (∅ : heap)) := ORef "/a"]> ∅) "/a")
    as [Hfirst _]; [reflexivity | apply lookup_insert_eq |].
  by apply Hfirst.
Qed.

(** ** Equality of Refs *)

Section equals.

Implicit Types (h : heap) (this r : loc) (v : string) (other : Value).

Lemma equals_Ref h this v r v' :
  h !! this = Some (ORef v) → h !! r = Some (ORef v') →
  Ref.equals this (VObj r) h = (Normal (String.eqb v v'), h).
Proof.
  intros Hthis Hr. unfold Ref.equals, Ref.instanceof, bind.
  rewrite (load_Some _ _ _ Hr). simpl.
  by rewrite (Ref_value_Some _ _ _ Hthis), (Ref_value_Some _ _ _ Hr).
Qed.

Lemma equals_not_Ref h this other :
  valid h other →
  (∀ r v', other = VObj r → h !! r ≠ Some (ORef v')) →
  Ref.equals this other h = (Normal false, h).
Proof.
  intros Hvalid Hother. unfold Ref.equals, Ref.instanceof, bind.
  destruct other as [| |b|s|l]; try done.
  destruct Hvalid as [o Hl]. rewrite (load_Some _ _ _ Hl).
  destruct o; try done. by destruct (Hother l value).
Qed.

End equals.

(** C6. [equals] answers [true] exactly when the other operand is a Ref with
    the same [value].  It is reflexive, symmetric between Refs, and [false]
    for every operand that is not a Ref, such as the string that is the
    receiver's value or a FaunaTime holding that same string. *)
Theorem Ref_equals_iff_same_value
    (h : heap) (this : loc) (v : string) (other : Value) :
  h !! this = Some (ORef v) →
  valid h other →
  (∃ b, Ref.equals this other h = (Normal b, h) ∧
        (b = true ↔ ∃ r, other = VObj r ∧ h !! r = Some (ORef v))) ∧
  Ref.equals this (VObj this) h = (Normal true, h) ∧
  (∀ r v', h !! r = Some (ORef v') →
           Ref.equals this (VObj r) h = Ref.equals r (VObj this) h) ∧
  ((∀ r v', other = VObj r → h !! r ≠ Some (ORef v')) →
   Ref.equals this other h = (Normal false, h)) ∧
  Ref.equals this (VStr v) h = (Normal false, h) ∧
  (∀ t, h !! t = Some (OFaunaTime v) →
        Ref.equals this (VObj t) h = (Normal false, h)).
Proof.
  intros Hthis Hvalid. split_and!.
  - assert ((∃ r v', other = VObj r ∧ h !! r = Some (ORef v')) ∨
            (∀ r v', other = VObj r → h !! r ≠ Some (ORef v'))) as [Href|Hnot].
    { destruct other as [| |b|s|l]; try (by right).
      destruct Hvalid as [o Hl].
      destruct o; try (right; intros r v' [= <-]; congruence).
      left. eauto. }
    + destruct Href as (r & v' & -> & Hr).
      exists (String.eqb v v'). split; [by apply equals_Ref |].
      rewrite String.eqb_eq. split.
      * intros <-. by exists r.
      * intros (r' & [= <-] & Hr'). congruence.
    + exists false. split; [by apply equals_not_Ref |].
      split; [done |]. intros (r & -> & Hr). by destruct (Hnot r v).
  - rewrite (equals_Ref _ _ _ _ _ Hthis Hthis). by rewrite String.eqb_refl.
  - intros r v' Hr.
    rewrite (equals_Ref _ _ _ _ _ Hthis Hr), (equals_Ref _ _ _ _ _ Hr Hthis).
    by rewrite String.eqb_sym.
  - by apply equals_not_Ref.
  - by apply equals_not_Ref.
  - intros t Ht. apply equals_not_Ref; [by eexists |].
    intros r v' [= <-]. congruence.
Qed.

Lemma Ref_equals_iff_same_value_witness :
  let h : heap :=
    {[ 1%positive := ORef "classes/x"; 2%positive := ORef "classes/x";
       3%positive := OFaunaTime "classes/x" ]} in
  (h !! 1%positive = Some (ORef "classes/x") ∧ valid h (VObj 2%positive)) ∧
  Ref.equals 1%positive (VObj 2%positive) h = (Normal true, h) ∧
  Ref.equals 1%positive (VObj 3%positive) h = (Normal false, h).
Proof.
  intros h.
  assert (h !! 1%positive = Some (ORef "classes/x")) as Hthis by reflexivity.
  assert (valid h (VObj 2%positive)) as Hvalid by (by eexists).
  split; [by split |].
  destruct (Ref_equals_iff_same_value h 1%positive "classes/x" (VObj 2%positive)
              Hthis Hvalid) as ((b & Hb & Hiff) & _ & _ & _ & _ & Htime).
  split; [| by apply Htime].
  rewrite Hb. f_equal. f_equal. apply Hiff. by exists 2%positive.
Defined.

(** ** Page *)

Section Page_facts.

Implicit Types (h : heap) (p a : loc) (xs : list Value) (func : Callback).

Lemma imap_unary (f : Value → Value) a xs :
  imap (λ i x, unary f x i a) xs = f <$> xs.
Proof. apply (imap_const f). Qed.

Lemma Array_map_new h a xs func :
  h !! a = Some (OArray xs) →
  ∃ a', h !! a' = None ∧
        Array_map (VObj a) func h
        = (Normal a', <[a' := OArray (imap (λ i x, func x i a) xs)]> h).
Proof.
  intros Ha. unfold Array_map, bind. rewrite (load_Some _ _ _ Ha).
  apply alloc_new.
Qed.

(** [mapData] with any callback: two allocations, the new array and the
    new page. *)
Lemma mapData_callback h p a xs before after func :
  h !! p = Some (OPage (VObj a) before after) →
  h !! a = Some (OArray xs) →
  ∃ a' p',
    h !! a' = None ∧ h !! p' = None ∧ a' ≠ p' ∧
    Page.mapData p func h
    = (Normal p',
       <[p' := OPage (VObj a') before after]>
         (<[a' := OArray (imap (λ i x, func x i a) xs)]> h)).
Proof.
  intros Hp Ha. unfold Page.mapData, bind. rewrite (load_Some _ _ _ Hp).
  destruct (Array_map_new h a xs func Ha) as (a' & Ha' & ->).
  unfold Page.constructor.
  destruct (alloc_new (OPage (VObj a') before after)
              (<[a' := OArray (imap (λ i x, func x i a) xs)]> h))
    as (p' & Hp' & ->).
  apply lookup_insert_None in Hp' as [Hp' Hne].
  by exists a', p'.
Qed.

End Page_facts.



(** ** Wire encoding *)

(** C9. Each [toJSON] allocates the object literal with the one property
    named by the class's tag and holding the stored payload: ['@ref'] with
    the value of a Ref, ['@set'] with the query of a SetRef, ['@ts'] with the
    value of a FaunaTime, ['@date'] with the value of a FaunaDate. *)
Theorem toJSON_tags_payload (h : heap) (this : loc) :
  (∀ v, h !! this = Some (ORef v) →
        ∃ j, h !! j = None ∧
             Ref.toJSON this h
             = (Normal j, <[j := tagged "@ref" (VStr v)]> h)) ∧
  (∀ q, h !! this = Some (OSetRef q) →
        ∃ j, h !! j = None ∧
             SetRef.toJSON this h = (Normal j, <[j := tagged "@set" q]> h)) ∧
  (∀ v, h !! this = Some (OFaunaTime v) →
        ∃ j, h !! j = None ∧
             FaunaTime.toJSON this h
             = (Normal j, <[j := tagged "@ts" (VStr v)]> h)) ∧
  (∀ v, h !! this = Some (OFaunaDate v) →
        ∃ j, h !! j = None ∧
             FaunaDate.toJSON this h
             = (Normal j, <[j := tagged "@date" v]> h)).
Proof.
  split_and!; intros x Hthis.
  - unfold Ref.toJSON, bind. rewrite (Ref_value_Some _ _ _ Hthis).
    apply alloc_new.
  - unfold SetRef.toJSON, SetRef.query, bind. rewrite (load_Some _ _ _ Hthis).
    apply alloc_new.
  - unfold FaunaTime.toJSON, FaunaTime.value, bind.
    rewrite (load_Some _ _ _ Hthis). apply alloc_new.
  - unfold FaunaDate.toJSON, FaunaDate.value, bind.
    rewrite (load_Some _ _ _ Hthis). apply alloc_new.
Qed.

Lemma toJSON_tags_payload_witness :
  let h : heap :=
    {[ 1%positive := ORef "classes/x";
       2%positive := OSetRef (VObj 1%positive);
       3%positive := OFaunaTime "2023-01-01T00:00:00.000Z";
       4%positive := OFaunaDate (VStr "2023-06-15") ]} in
  (h !! 1%positive = Some (ORef "classes/x") ∧
   ∃ j, h !! j = None ∧
        Ref.toJSON 1%positive h
        = (Normal j, <[j := OObject [("@ref", VStr "classes/x")]]> h)) ∧
  (h !! 2%positive = Some (OSetRef (VObj 1%positive)) ∧
   ∃ j, h !! j = None ∧
        SetRef.toJSON 2%positive h
        = (Normal j, <[j := OObject [("@set", VObj 1%positive)]]> h)) ∧
  (h !! 3%positive = Some (OFaunaTime "2023-01-01T00:00:00.000Z") ∧
   ∃ j, h !! j = None ∧
        FaunaTime.toJSON 3%positive h
        = (Normal j,
           <[j := OObject [("@ts", VStr "2023-01-01T00:00:00.000Z")]]> h)) ∧
  (h !! 4%positive = Some (OFaunaDate (VStr "2023-06-15")) ∧
   ∃ j, h !! j = None ∧
        FaunaDate.toJSON 4%positive h
        = (Normal j, <[j := OObject [("@date", VStr "2023-06-15")]]> h)).
Proof.
  intros h. split_and!; try reflexivity.
  - apply (proj1 (toJSON_tags_payload h 1%positive)). reflexivity.
  - apply (proj1 (proj2 (toJSON_tags_payload h 2%positive))). reflexivity.
  - apply (proj1 (proj2 (proj2 (toJSON_tags_payload h 3%positive)))).
    reflexivity.
  - apply (proj2 (proj2 (proj2 (toJSON_tags_payload h 4%positive)))).
    reflexivity.
Defined.

(** ** Suffixes, prefixes and digits *)

Section affixes.

Implicit Types (s t p : string).

Lemma substring_cut s (k : nat) :
  (k ≤ String.length s)%nat →
  s = String.substring 0 k s +:+ String.substring k (String.length s - k) s.
Proof.
  revert k. induction s as [|c s IH]; intros [|k] Hk; simpl in *;
    try done; try lia.
  - by rewrite substring_0_length.
  - rewrite <-IH by lia. done.
Qed.

(** [endsWith] holds exactly of the strings that are something followed by
    the suffix. *)
Lemma endsWith_iff s t : endsWith s t = true ↔ ∃ p, s = p +:+ t.
Proof.
  unfold endsWith. rewrite andb_true_iff, Nat.leb_le, String.eqb_eq. split.
  - intros [Hle Hsub].
    exists (String.substring 0 (String.length s - String.length t) s).
    pose proof (substring_cut s (String.length s - String.length t))
      as Hcut.
    replace (String.length s - (String.length s - String.length t))%nat
      with (String.length t) in Hcut by lia.
    rewrite Hsub in Hcut. apply Hcut. lia.
  - intros [p ->]. rewrite length_append. split; [lia |].
    replace (String.length p + String.length t - String.length t)%nat
      with (String.length p) by lia.
    apply substring_suffix.
Qed.

Lemma substring_0_min s (n : nat) :
  String.substring 0 (n `min` String.length s) s = String.substring 0 n s.
Proof.
  revert n. induction s as [|c s IH]; intros [|n]; simpl; try done.
  by rewrite IH.
Qed.

(** [s.slice(0, n)] is the first [n] characters of [s], or all of [s] when
    it is shorter. *)
Lemma String_slice_prefix s (n : nat) :
  String_slice 0 (Z.of_nat n) s = String.substring 0 n s.
Proof.
  unfold String_slice, slice_range.
  replace (0 <? 0) with false by done.
  replace (Z.of_nat n <? 0) with false by (symmetry; apply Z.ltb_ge; lia).
  rewrite Z.min_l by lia. change (Z.to_nat 0) with O.
  rewrite <-(substring_0_min s n). f_equal. lia.
Qed.

Lemma length_digits (w : nat) (n : Z) : String.length (digits w n) = w.
Proof.
  revert n. induction w as [|w IH]; intros n; simpl; [done |].
  rewrite length_append, IH. simpl. lia.
Qed.

Lemma year_string_four_digits (y : Z) :
  0 ≤ y ≤ 9999 → year_string y = digits 4 y.
Proof.
  intros Hy. unfold year_string.
  by replace ((0 <=? y) && (y <=? 9999)) with true
    by (symmetry; apply andb_true_iff; lia).
Qed.

Lemma length_date_string (day : Z) :
  0 ≤ YearFromDay day ≤ 9999 →
  String.length (date_string day) = 10%nat.
Proof.
  intros Hy. unfold date_string. rewrite (year_string_four_digits _ Hy).
  by rewrite !length_append, !length_digits.
Qed.

(** The ISO form of a time value in the years 0 to 9999 starts with the ten
    characters of its calendar date. *)
Lemma iso_string_date_prefix (t : Z) :
  0 ≤ YearFromTime t ≤ 9999 →
  String.substring 0 10 (iso_string t) = date_string (Day t).
Proof.
  intros Hy. unfold iso_string.
  rewrite <-(length_date_string (Day t) Hy). apply substring_prefix.
Qed.

End affixes.

(** ** The calendar *)

Section calendar.

Implicit Types (day y : Z).

(** A later year starts on a later day. *)
Lemma DayFromYear_mono y y' : y < y' → DayFromYear y < DayFromYear y'.
Proof. unfold DayFromYear. intros Hlt. Z.div_mod_to_equations. lia. Qed.

(** The day lies in the year computed for it. *)
Lemma YearFromDay_bracket day :
  DayFromYear (YearFromDay day) ≤ day < DayFromYear (YearFromDay day + 1).
Proof.
  unfold YearFromDay. cbv zeta.
  set (y := 1970 + 400 * day / 146097).
  assert (DayFromYear (y - 1) ≤ day < DayFromYear (y + 2)) as Hest.
  { subst y. unfold DayFromYear. Z.div_mod_to_equations. lia. }
  destruct (Z.leb_spec (DayFromYear (y + 1)) day) as [Hup|Hup].
  - replace (y + 1 + 1) with (y + 2) by lia. lia.
  - destruct (Z.ltb_spec day (DayFromYear y)) as [Hlo|Hlo].
    + replace (y - 1 + 1) with y by lia. lia.
    + lia.
Qed.

(** [YearFromDay] is the largest year that starts on or before the day. *)
Theorem YearFromDay_largest day y :
  DayFromYear y ≤ day ↔ y ≤ YearFromDay day.
Proof.
  pose proof (YearFromDay_bracket day) as [Hlo Hhi]. split.
  - intros Hy. destruct (Z.le_gt_cases y (YearFromDay day)) as [|Hgt]; [done |].
    destruct (Z.eq_dec y (YearFromDay day + 1)) as [->|Hne]; [lia |].
    pose proof (DayFromYear_mono (YearFromDay day + 1) y). lia.
  - intros Hy. destruct (Z.eq_dec y (YearFromDay day)) as [->|Hne]; [done |].
    pose proof (DayFromYear_mono y (YearFromDay day)). lia.
Qed.

(** A year lasts 365 days, and one more when it is a leap year. *)
Lemma DayFromYear_succ y :
  DayFromYear (y + 1) = DayFromYear y + 365 + InLeapYear y.
Proof.
  unfold DayFromYear, InLeapYear.
  destruct (Z.eqb_spec (y mod 4) 0), (Z.eqb_spec (y mod 100) 0),
    (Z.eqb_spec (y mod 400) 0); simpl; Z.div_mod_to_equations; lia.
Qed.

Lemma month_date_range (dwy leap : Z) :
  0 ≤ leap ≤ 1 → 0 ≤ dwy < 365 + leap →
  0 ≤ (month_date dwy leap).1 ≤ 11 ∧ 1 ≤ (month_date dwy leap).2 ≤ 31.
Proof.
  intros Hleap Hdwy. unfold month_date.
  repeat (match goal with
          | |- context [?a <? ?b] => destruct (Z.ltb_spec a b)
          end; simpl; [lia |]).
  lia.
Qed.

(** Every day has a month from 0 to 11 and a day of the month from 1 to
    31, so that two digits print each in full. *)
Theorem date_fields_range day :
  0 ≤ MonthFromDay day ≤ 11 ∧ 1 ≤ DateFromDay day ≤ 31.
Proof.
  unfold MonthFromDay, DateFromDay, DayWithinYear.
  pose proof (YearFromDay_bracket day) as Hyear.
  rewrite DayFromYear_succ in Hyear.
  apply month_date_range; [| lia].
  unfold InLeapYear. by destruct (_ && _).
Qed.

(** The ISO-8601 forms of some time values: the epoch, the two instants of
    the specification's examples, the millisecond before the epoch, a leap
    day, and the ends of the four-digit years and of the range of time
    values. *)
Example iso_string_examples :
  iso_string <$>
    [0; 1672531200000; 1686873599000; -1; 1709164800000;
     -62167219200000; 253402300799999; 253402300800000;
     -62167219200001; 8640000000000000; -8640000000000000]
  = ["1970-01-01T00:00:00.000Z"; "2023-01-01T00:00:00.000Z";
     "2023-06-15T23:59:59.000Z"; "1969-12-31T23:59:59.999Z";
     "2024-02-29T00:00:00.000Z"; "0000-01-01T00:00:00.000Z";
     "9999-12-31T23:59:59.999Z"; "+010000-01-01T00:00:00.000Z";
     "-000001-12-31T23:59:59.999Z"; "+275760-09-13T00:00:00.000Z";
     "-271821-04-20T00:00:00.000Z"].
Proof. vm_compute. reflexivity. Qed.

End calendar.

(** ** FaunaTime and FaunaDate *)

Section temporal.

Implicit Types (h : heap) (d : loc) (t : Z) (s : string).

Lemma instanceof_Date_string h s :
  instanceof_Date (VStr s) h = (Normal false, h).
Proof. done. Qed.

Lemma instanceof_Date_Date h d tv :
  h !! d = Some (ODate tv) → instanceof_Date (VObj d) h = (Normal true, h).
Proof.
  intros Hd. unfold instanceof_Date, bind. by rewrite (load_Some _ _ _ Hd).
Qed.

Lemma toISOString_valid h d t :
  h !! d = Some (ODate (Some t)) →
  Date_toISOString (VObj d) h = (Normal (iso_string t), h).
Proof.
  intros Hd. unfold Date_toISOString, bind. by rewrite (load_Some _ _ _ Hd).
Qed.

Lemma toISOString_invalid h d :
  h !! d = Some (ODate None) →
  Date_toISOString (VObj d) h = (Throw RangeError, h).
Proof.
  intros Hd. unfold Date_toISOString, bind. by rewrite (load_Some _ _ _ Hd).
Qed.

Lemma FaunaTime_string h s :
  FaunaTime.constructor (VStr s) h
  = if endsWith s "Z"
    then (Normal (fresh (dom h)), <[fresh (dom h) := OFaunaTime s]> h)
    else (Throw (InvalidValue ("Only allowed timezone is 'Z', got: " +:+ s)),
          h).
Proof.
  unfold FaunaTime.constructor, bind. rewrite instanceof_Date_string.
  by destruct (endsWith s "Z").
Qed.

Lemma iso_string_ends_with_Z t : ∃ p, iso_string t = p +:+ "Z".
Proof.
  exists (date_string (Day t) +:+ "T" +:+ time_string t).
  unfold iso_string. by rewrite !append_assoc.
Qed.

End temporal.

(** C4, as the code has it.  From a string, the constructor throws
    [InvalidValue] exactly when the string does not end with ['Z'], and
    stores a string that does as it is.  From a Date with a finite time
    value it stores the ISO-8601 form, milliseconds included, which ends with
    ['Z'].  From an invalid Date it fails with the host's [RangeError]. *)
Theorem FaunaTime_constructor_requires_Z (h : heap) :
  (∀ s, (∃ msg, (FaunaTime.constructor (VStr s) h).1
                = Throw (InvalidValue msg)) ↔
        ¬ ∃ p, s = p +:+ "Z") ∧
  (∀ s, (FaunaTime.constructor (VStr s) h).1 = Normal (fresh (dom h)) ∨
        FaunaTime.constructor (VStr s) h
        = (Throw (InvalidValue ("Only allowed timezone is 'Z', got: " +:+ s)),
           h)) ∧
  (∀ p, ∃ r, h !! r = None ∧
             FaunaTime.constructor (VStr (p +:+ "Z")) h
             = (Normal r, <[r := OFaunaTime (p +:+ "Z")]> h)) ∧
  (∀ d t, h !! d = Some (ODate (Some t)) →
          ∃ r, h !! r = None ∧
               FaunaTime.constructor (VObj d) h
               = (Normal r, <[r := OFaunaTime (iso_string t)]> h) ∧
               ∃ p, iso_string t = p +:+ "Z") ∧
  (∀ d, h !! d = Some (ODate None) →
        FaunaTime.constructor (VObj d) h = (Throw RangeError, h)).
Proof.
  split_and!.
  - intros s. rewrite FaunaTime_string, <-endsWith_iff.
    destruct (endsWith s "Z"); simpl; split.
    + by intros [msg ?].
    + by intros [].
    + done.
    + intros _. by eexists.
  - intros s. rewrite FaunaTime_string.
    destruct (endsWith s "Z"); [by left | by right].
  - intros p. rewrite FaunaTime_string.
    replace (endsWith (p +:+ "Z") "Z") with true
      by (symmetry; apply endsWith_iff; by exists p).
    exists (fresh (dom h)). split; [apply fresh_unused | done].
  - intros d t Hd. unfold FaunaTime.constructor, bind.
    rewrite (instanceof_Date_Date _ _ _ Hd), (toISOString_valid _ _ _ Hd).
    exists (fresh (dom h)).
    split_and!; [apply fresh_unused | done | apply iso_string_ends_with_Z].
  - intros d Hd. unfold FaunaTime.constructor, bind.
    by rewrite (instanceof_Date_Date _ _ _ Hd), (toISOString_invalid _ _ Hd).
Qed.

Lemma FaunaTime_constructor_requires_Z_witness :
  let h : heap := {[ 1%positive := ODate (Some 1672531200000);
                     2%positive := ODate None ]} in
  (h !! 1%positive = Some (ODate (Some 1672531200000)) ∧
   ∃ r, h !! r = None ∧
        FaunaTime.constructor (VObj 1%positive) h
        = (Normal r, <[r := OFaunaTime "2023-01-01T00:00:00.000Z"]> h) ∧
        ∃ p, "2023-01-01T00:00:00.000Z" = p +:+ "Z") ∧
  (h !! 2%positive = Some (ODate None) ∧
   FaunaTime.constructor (VObj 2%positive) h = (Throw RangeError, h)) ∧
  (¬ (∃ p, "2023-01-01T00:00:00.000+01:00" = p +:+ "Z") ∧
   ∃ msg, (FaunaTime.constructor (VStr "2023-01-01T00:00:00.000+01:00") h).1
          = Throw (InvalidValue msg)).
Proof.
  intros h.
  destruct (FaunaTime_constructor_requires_Z h)
    as (Hiff & _ & _ & Hdate & Hinvalid).
  split; [| split].
  - split; [reflexivity |]. apply (Hdate 1%positive 1672531200000). reflexivity.
  - split; [reflexivity |]. apply (Hinvalid 2%positive). reflexivity.
  - assert (∃ msg,
              (FaunaTime.constructor (VStr "2023-01-01T00:00:00.000+01:00") h).1
              = Throw (InvalidValue msg)) as Hthrow by (by eexists).
    split; [by apply Hiff | exact Hthrow].
Defined.

(** C4 as stated fails on a Date that holds no time: [new Date(NaN)] is a
    Date, its [toISOString] throws, and so does the constructor. *)
Lemma FaunaTime_invalid_Date_counterexample :
  ¬ (∀ (h : heap) (d : loc) (tv : option Z),
       h !! d = Some (ODate tv) →
       ∃ r h', FaunaTime.constructor (VObj d) h = (Normal r, h')).
Proof.
  intros Hclaim.
  destruct (Hclaim {[ 1%positive := ODate None ]} 1%positive None)
    as (r & h' & Hnew); [reflexivity |].
  discriminate Hnew.
Qed.

(** C8, as the code has it.  From a Date with a finite time value the
    constructor stores the first ten characters of the ISO-8601 form; when
    the year is 0 to 9999 these are the calendar date [YYYY-MM-DD] of the
    day the time value falls on, whatever the time of day.  From an invalid
    Date it fails with the host's [RangeError].  A string is stored as it
    is. *)
Theorem FaunaDate_constructor_keeps_date_prefix (h : heap) :
  (∀ d t, h !! d = Some (ODate (Some t)) →
          ∃ r, h !! r = None ∧
               FaunaDate.constructor (VObj d) h
               = (Normal r,
                  <[r := OFaunaDate
                           (VStr (String.substring 0 10 (iso_string t)))]> h) ∧
               (0 ≤ YearFromTime t ≤ 9999 →
                String.substring 0 10 (iso_string t) = date_string (Day t) ∧
                date_string (Day t)
                = digits 4 (YearFromTime t) +:+ "-" +:+
                  digits 2 (MonthFromTime t + 1) +:+ "-" +:+
                  digits 2 (DateFromTime t))) ∧
  (∀ d, h !! d = Some (ODate None) →
        FaunaDate.constructor (VObj d) h = (Throw RangeError, h)) ∧
  (∀ s, ∃ r, h !! r = None ∧
             FaunaDate.constructor (VStr s) h
             = (Normal r, <[r := OFaunaDate (VStr s)]> h)).
Proof.
  split_and!.
  - intros d t Hd. unfold FaunaDate.constructor, bind.
    rewrite (instanceof_Date_Date _ _ _ Hd), (toISOString_valid _ _ _ Hd).
    unfold ret at 1. rewrite (String_slice_prefix _ 10).
    exists (fresh (dom h)). split_and!; [apply fresh_unused | done |].
    intros Hy. split; [by apply iso_string_date_prefix |].
    unfold date_string, MonthFromTime, DateFromTime.
    unfold YearFromTime in *. by rewrite (year_string_four_digits _ Hy).
  - intros d Hd. unfold FaunaDate.constructor, bind.
    by rewrite (instanceof_Date_Date _ _ _ Hd), (toISOString_invalid _ _ Hd).
  - intros s. exists (fresh (dom h)). split; [apply fresh_unused | done].
Qed.

Lemma FaunaDate_constructor_keeps_date_prefix_witness :
  let h : heap := {[ 1%positive := ODate (Some 1686873599000);
                     2%positive := ODate None ]} in
  (h !! 1%positive = Some (ODate (Some 1686873599000)) ∧
   0 ≤ YearFromTime 1686873599000 ≤ 9999 ∧
   iso_string 1686873599000 = "2023-06-15T23:59:59.000Z" ∧
   date_string (Day 1686873599000) = "2023-06-15" ∧
   ∃ r, h !! r = None ∧
        FaunaDate.constructor (VObj 1%positive) h
        = (Normal r, <[r := OFaunaDate (VStr "2023-06-15")]> h)) ∧
  (h !! 2%positive = Some (ODate None) ∧
   FaunaDate.constructor (VObj 2%positive) h = (Throw RangeError, h)).
Proof.
  intros h.
  destruct (FaunaDate_constructor_keeps_date_prefix h)
    as (Hdate & Hinvalid & _).
  split.
  - assert (h !! 1%positive = Some (ODate (Some 1686873599000))) as Hd
      by reflexivity.
    assert (0 ≤ YearFromTime 1686873599000 ≤ 9999) as Hy
      by (vm_compute; split; discriminate).
    destruct (Hdate 1%positive 1686873599000 Hd) as (r & Hr & Hnew & Hprefix).
    destruct (Hprefix Hy) as [Hten _].
    split; [exact Hd |]. split; [exact Hy |].
    split; [reflexivity |]. split; [reflexivity |].
    exists r. split; [exact Hr | exact Hnew].
  - split; [reflexivity |]. apply (Hinvalid 2%positive). reflexivity.
Defined.

(** C8 as stated fails in two places.  An invalid Date has no ISO-8601 form
    and the constructor throws.  A Date beyond the year 9999 has a form that
    starts with a sign and six digits of year, so that its first ten
    characters stop inside the month: ['+010000-01'] for the first day of the
    year 10000, whose calendar date is ['+010000-01-01']. *)
Lemma FaunaDate_date_prefix_counterexample :
  ¬ (∀ (h : heap) (d : loc) (tv : option Z),
       h !! d = Some (ODate tv) →
       ∃ r h', FaunaDate.constructor (VObj d) h = (Normal r, h')) ∧
  ¬ (∀ (h : heap) (d : loc) (t : Z),
       h !! d = Some (ODate (Some t)) →
       ∃ r, FaunaDate.constructor (VObj d) h
            = (Normal r, <[r := OFaunaDate (VStr (date_string (Day t)))]> h)).
Proof.
  split; intros Hclaim.
  - destruct (Hclaim {[ 1%positive := ODate None ]} 1%positive None)
      as (r & h' & Hnew); [reflexivity |].
    discriminate Hnew.
  - set (h := {[ 1%positive := ODate (Some 253402300800000) ]} : heap).
    destruct (Hclaim h 1%positive 253402300800000) as (r & Hnew);
      [reflexivity |].
    assert (FaunaDate.constructor (VObj 1%positive) h
            = (Normal (fresh (dom h)),
               <[fresh (dom h) := OFaunaDate (VStr "+010000-01")]> h))
      as Hcode by reflexivity.
    rewrite Hcode in Hnew.
    assert (r = fresh (dom h)) as -> by (by injection (f_equal fst Hnew)).
    apply (f_equal (λ res, res.2 !! fresh (dom h))) in Hnew. simpl in Hnew.
    rewrite !lookup_insert_eq in Hnew.
    replace (date_string (Day 253402300800000)) with "+010000-01-01" in Hnew
      by (vm_compute; reflexivity).
    discriminate Hnew.
Qed.


(** * Further properties *)

(** ** What the methods do to the store *)

Ltac split_if :=
  cbv beta zeta;
  match goal with
  | |- context [if ?b then _ else _] => destruct b
  end.

Section frame.

Context {A B : Type}.
Implicit Types (h : heap) (m : JS A) (k : A → JS B).

Lemma reads_ret (a : A) : reads (ret a).
Proof. done. Qed.

Lemma reads_throw (e : Error) : reads (@throw A e).
Proof. done. Qed.

Lemma reads_stuck : reads (@stuck A).
Proof. done. Qed.

Lemma reads_bind m k : reads m → (∀ a, reads (k a)) → reads (bind m k).
Proof.
  intros Hm Hk h. unfold bind. specialize (Hm h).
  destruct (m h) as [[a|e|] h']; simpl in *; subst; [apply Hk | done | done].
Qed.

Lemma reads_preserves m : reads m → preserves m.
Proof. intros Hm h. by rewrite Hm. Qed.

Lemma preserves_bind m k :
  preserves m → (∀ a, preserves (k a)) → preserves (bind m k).
Proof.
  intros Hm Hk h. unfold bind. specialize (Hm h).
  destruct (m h) as [[a|e|] h']; simpl in *; [| done | done].
  etrans; [exact Hm | apply Hk].
Qed.

End frame.

Lemma reads_load (l : loc) : reads (load l).
Proof. intros h. unfold load. by destruct (h !! l). Qed.

Lemma preserves_alloc (o : Obj) : preserves (alloc o).
Proof. intros h. apply insert_subseteq, fresh_unused. Qed.

Lemma reads_mapM {A B} (f : A → JS B) (l : list A) :
  (∀ x, reads (f x)) → reads (mapM f l).
Proof.
  intros Hf. induction l as [|x l IH]; simpl; [apply reads_ret |].
  apply reads_bind; [apply Hf |]. intros y.
  apply reads_bind; [apply IH |]. intros ys. apply reads_ret.
Qed.

Lemma reads_ToString (v : Value) : reads (ToString v).
Proof.
  destruct v as [| |[]|s|l]; try apply reads_ret.
  apply reads_bind; [apply reads_load |].
  intros []; try first [apply reads_ret | apply reads_stuck].
  destruct (property _ _); [apply reads_throw | apply reads_ret].
Qed.

Lemma reads_Array_join (sep : string) (a : list Value) :
  reads (Array_join sep a).
Proof.
  apply reads_bind; [| intros; apply reads_ret].
  apply reads_mapM. intros []; first [apply reads_ret | apply reads_ToString].
Qed.

Lemma reads_Get (v : Value) (key : string) : reads (Get v key).
Proof.
  unfold Get. split_if; [apply reads_stuck |].
  destruct v; try first [apply reads_ret | apply reads_throw].
  apply reads_bind; [apply reads_load | intros; apply reads_ret].
Qed.

Lemma reads_Ref_value (this : loc) : reads (Ref.value this).
Proof.
  apply reads_bind; [apply reads_load |].
  intros []; first [apply reads_ret | apply reads_stuck].
Qed.

Lemma reads_instanceof_Date (v : Value) : reads (instanceof_Date v).
Proof.
  destruct v; try apply reads_ret.
  apply reads_bind; [apply reads_load |]. intros []; apply reads_ret.
Qed.

Lemma reads_toISOString (v : Value) : reads (Date_toISOString v).
Proof.
  destruct v; try apply reads_stuck.
  apply reads_bind; [apply reads_load |].
  intros []; try apply reads_stuck.
  destruct tv; [apply reads_ret | apply reads_throw].
Qed.


Lemma preserves_Ref_constructor (args : list Value) :
  preserves (Ref.constructor args).
Proof.
  apply preserves_bind; [apply reads_preserves, reads_Array_join |].
  intros v. apply preserves_alloc.
Qed.

Lemma preserves_Array_map (a : Value) (func : Callback) :
  preserves (Array_map a func).
Proof.
  destruct a; try (apply reads_preserves, reads_throw).
  apply preserves_bind; [apply reads_preserves, reads_load |].
  intros []; first [apply preserves_alloc | apply reads_preserves, reads_throw].
Qed.

Lemma preserves_Date_constructor (v : Value) : preserves (Date_constructor v).
Proof.
  destruct v as [| |b|s|l]; simpl;
    try first [apply preserves_alloc | apply reads_preserves, reads_stuck].
  - destruct (Date_parse s);
      [apply preserves_alloc | apply reads_preserves, reads_stuck].
  - apply preserves_bind; [apply reads_preserves, reads_load |].
    intros []; first [apply preserves_alloc | apply reads_preserves, reads_stuck].
Qed.


(** X2. No constructor, getter or method of the module changes or removes an
    object that is already in the store: each one at most adds objects. *)
Theorem methods_never_mutate :
  (∀ args, preserves (Ref.constructor args)) ∧
  (∀ this, preserves (Ref.class this)) ∧
  (∀ this, preserves (Ref.toJSON this)) ∧
  (∀ q, preserves (SetRef.constructor q)) ∧
  (∀ this, preserves (SetRef.toJSON this)) ∧
  (∀ d b a, preserves (Page.constructor d b a)) ∧
  (∀ object, preserves (Page.fromRaw object)) ∧
  (∀ this func, preserves (Page.mapData this func)) ∧
  (∀ v, preserves (FaunaTime.constructor v)) ∧
  (∀ this, preserves (FaunaTime.date this)) ∧
  (∀ this, preserves (FaunaTime.toJSON this)) ∧
  (∀ v, preserves (FaunaDate.constructor v)) ∧
  (∀ this, preserves (FaunaDate.date this)) ∧
  (∀ this, preserves (FaunaDate.toJSON this)).
Proof.
  split_and!.
  - apply preserves_Ref_constructor.
  - intros this. apply preserves_bind; [apply reads_preserves, reads_Ref_value |].
    intros v. split_if;
      [apply reads_preserves, reads_ret | apply preserves_Ref_constructor].
  - intros this. apply preserves_bind; [apply reads_preserves, reads_Ref_value |].
    intros v. apply preserves_alloc.
  - intros q. apply preserves_alloc.
  - intros this. apply preserves_bind; [| intros; apply preserves_alloc].
    apply reads_preserves, reads_bind; [apply reads_load |].
    intros []; first [apply reads_ret | apply reads_stuck].
  - intros d b a. apply preserves_alloc.
  - intros object.
    apply preserves_bind; [apply reads_preserves, reads_Get | intros d].
    apply preserves_bind; [apply reads_preserves, reads_Get | intros b].
    apply preserves_bind; [apply reads_preserves, reads_Get | intros a].
    apply preserves_alloc.
  - intros this func.
    apply preserves_bind; [apply reads_preserves, reads_load |].
    intros []; try (apply reads_preserves, reads_stuck).
    apply preserves_bind; [apply preserves_Array_map |].
    intros a'. apply preserves_alloc.
  - intros v.
    apply preserves_bind; [apply reads_preserves, reads_instanceof_Date |].
    intros is_date. apply preserves_bind; [| intros; apply preserves_alloc].
    apply reads_preserves. destruct is_date; [apply reads_toISOString |].
    destruct v; try apply reads_throw.
    split_if; [apply reads_throw | apply reads_ret].
  - intros this. apply preserves_bind; [| intros; apply preserves_Date_constructor].
    apply reads_preserves, reads_bind; [apply reads_load |].
    intros []; first [apply reads_ret | apply reads_stuck].
  - intros this. apply preserves_bind; [| intros; apply preserves_alloc].
    apply reads_preserves, reads_bind; [apply reads_load |].
    intros []; first [apply reads_ret | apply reads_stuck].
  - intros v.
    apply preserves_bind; [apply reads_preserves, reads_instanceof_Date |].
    intros is_date. apply preserves_bind; [| intros; apply preserves_alloc].
    apply reads_preserves. destruct is_date; [| apply reads_ret].
    apply reads_bind; [apply reads_toISOString | intros; apply reads_ret].
  - intros this. apply preserves_bind; [| intros; apply preserves_Date_constructor].
    apply reads_preserves, reads_bind; [apply reads_load |].
    intros []; first [apply reads_ret | apply reads_stuck].
  - intros this. apply preserves_bind; [| intros; apply preserves_alloc].
    apply reads_preserves, reads_bind; [apply reads_load |].
    intros []; first [apply reads_ret | apply reads_stuck].
Qed.

(** ** More on Page *)

Section Page_more.

Implicit Types (h : heap) (p a l : loc) (xs : list Value) (func : Callback).

Lemma Get_object h l o key :
  key ∈ field_names → h !! l = Some o →
  Get (VObj l) key h = (Normal (default VUndefined (own_property o key)), h).
Proof.
  intros Hkey Hl. unfold Get. rewrite (bool_decide_eq_true_2 _ Hkey). simpl.
  unfold bind. by rewrite (load_Some _ _ _ Hl).
Qed.

Lemma fromRaw_object h l o :
  h !! l = Some o →
  ∃ p', h !! p' = None ∧
        Page.fromRaw (VObj l) h
        = (Normal p',
           <[p' := OPage (default VUndefined (own_property o "data"))
                         (default VUndefined (own_property o "before"))
                         (default VUndefined (own_property o "after"))]> h).
Proof.
  intros Hl. unfold Page.fromRaw, bind.
  rewrite !(Get_object h l o) by (done || set_solver).
  apply alloc_new.
Qed.

Lemma mapData_not_array h p data before after func :
  h !! p = Some (OPage data before after) →
  valid h data → ¬ is_Array h data →
  Page.mapData p func h = (Throw TypeError, h).
Proof.
  intros Hp Hvalid Hnot. unfold Page.mapData, bind.
  rewrite (load_Some _ _ _ Hp).
  destruct data as [| |b|s|l]; try done.
  destruct Hvalid as [o Hl]. simpl. unfold bind. rewrite (load_Some _ _ _ Hl).
  destruct o; try done. destruct Hnot. by exists l, elems.
Qed.

End Page_more.

(** X4. Mapping [f] over a Page and then [g] over the result gives the data
    that mapping their composition gives: each element [x] becomes
    [g (f x)], in order, with [before] and [after] carried through both
    steps. *)
Theorem Page_mapData_composes
    (h : heap) (p a : loc) (xs : list Value) (before after : Value)
    (f g : Value → Value) :
  h !! p = Some (OPage (VObj a) before after) →
  h !! a = Some (OArray xs) →
  ∃ p2 a2 h2,
    (do p1 <- Page.mapData p (unary f); Page.mapData p1 (unary g)) h
    = (Normal p2, h2) ∧
    h2 !! p2 = Some (OPage (VObj a2) before after) ∧
    h2 !! a2 = Some (OArray ((g ∘ f) <$> xs)) ∧
    h2 !! p = Some (OPage (VObj a) before after) ∧
    h2 !! a = Some (OArray xs).
Proof.
  intros Hp Ha. unfold bind at 1.
  destruct (mapData_callback h p a xs before after (unary f) Hp Ha)
    as (a1 & p1 & Ha1 & Hp1 & Hne1 & ->).
  rewrite imap_unary.
  set (h1 := <[p1 := OPage (VObj a1) before after]>
               (<[a1 := OArray (f <$> xs)]> h)).
  assert (h1 !! p1 = Some (OPage (VObj a1) before after)) as Hp1'
    by apply lookup_insert_eq.
  assert (h1 !! a1 = Some (OArray (f <$> xs))) as Ha1'.
  { unfold h1. rewrite lookup_insert_ne by done. apply lookup_insert_eq. }
  assert (∀ l o, h !! l = Some o → h1 !! l = Some o) as Hframe1.
  { intros l o Hl. unfold h1. rewrite !lookup_insert_ne; [done | |]; congruence. }
  destruct (mapData_callback h1 p1 a1 (f <$> xs) before after (unary g)
              Hp1' Ha1') as (a2 & p2 & Ha2 & Hp2 & Hne2 & ->).
  rewrite imap_unary, <-list_fmap_compose.
  eexists p2, a2, _. split; [done |].
  split_and!.
  - apply lookup_insert_eq.
  - rewrite lookup_insert_ne by done. apply lookup_insert_eq.
  - rewrite !lookup_insert_ne; [by apply Hframe1 | |];
      intros ->; specialize (Hframe1 _ _ Hp); congruence.
  - rewrite !lookup_insert_ne; [by apply Hframe1 | |];
      intros ->; specialize (Hframe1 _ _ Ha); congruence.
Qed.

Lemma Page_mapData_composes_witness :
  let h : heap :=
    {[ 1%positive := OPage (VObj 2%positive) VUndefined VUndefined;
       2%positive := OArray [VStr "a"; VNull] ]} in
  let f := λ x : Value, match x with VStr s => VStr (s +:+ "!") | _ => x end in
  let g := λ x : Value, match x with VNull => VBool false | _ => x end in
  (h !! 1%positive = Some (OPage (VObj 2%positive) VUndefined VUndefined) ∧
   h !! 2%positive = Some (OArray [VStr "a"; VNull])) ∧
  ∃ p2 a2 h2,
    (do p1 <- Page.mapData 1%positive (unary f); Page.mapData p1 (unary g)) h
    = (Normal p2, h2) ∧
    h2 !! p2 = Some (OPage (VObj a2) VUndefined VUndefined) ∧
    h2 !! a2 = Some (OArray [VStr "a!"; VBool false]) ∧
    h2 !! 1%positive = Some (OPage (VObj 2%positive) VUndefined VUndefined) ∧
    h2 !! 2%positive = Some (OArray [VStr "a"; VNull]).
Proof.
  intros h f g. split; [split; reflexivity |].
  apply (Page_mapData_composes h 1%positive 2%positive [VStr "a"; VNull]
           VUndefined VUndefined f g); reflexivity.
Defined.

(** ** More on Ref *)

Section Ref_more.

Implicit Types (h : heap) (this r a b c : loc) (v s t : string)
  (S : list string).

Lemma split_cons_free (sep : ascii) s t :
  occurs sep s = false →
  split sep (s +:+ String sep t) = s :: split sep t.
Proof.
  induction s as [|x s IH]; simpl.
  - intros _. by rewrite Ascii.eqb_refl.
  - intros [Hx Hs]%orb_false_iff. by rewrite Hx, (IH Hs).
Qed.

(** Splitting undoes joining, for segments free of the separator. *)
Lemma split_join (sep : ascii) S :
  S ≠ [] → Forall (λ s, occurs sep s = false) S →
  split sep (join (String sep EmptyString) S) = S.
Proof.
  intros Hne HS. induction HS as [|s S Hs HS IH]; [done |].
  destruct S as [|t S]; [by apply split_free |].
  change (join (String sep EmptyString) (s :: t :: S))
    with (s +:+ String sep EmptyString +:+ join (String sep EmptyString) (t :: S)).
  simpl. rewrite (split_cons_free _ _ _ Hs). f_equal. by apply IH.
Qed.

Lemma join_snoc (sep : string) S s :
  S ≠ [] → join sep (S ++ [s]) = join sep S +:+ sep +:+ s.
Proof.
  intros Hne. induction S as [|t S IH]; [done |].
  destruct S as [|u S]; [done |].
  change (join sep ((t :: u :: S) ++ [s]))
    with (t +:+ sep +:+ join sep ((u :: S) ++ [s])).
  rewrite IH by done.
  change (join sep (t :: u :: S)) with (t +:+ sep +:+ join sep (u :: S)).
  by rewrite !append_assoc.
Qed.

Lemma equals_true_inv h a b :
  Ref.equals a (VObj b) h = (Normal true, h) →
  ∃ v, h !! a = Some (ORef v) ∧ h !! b = Some (ORef v).
Proof.
  unfold Ref.equals, Ref.instanceof, Ref.value, bind, load.
  destruct (h !! b) as [[vb| | | | | | |]|] eqn:Hb; simpl; try done.
  destruct (h !! a) as [[va| | | | | | |]|] eqn:Ha; simpl; try done.
  rewrite Hb. simpl. intros [= Heq]. apply String.eqb_eq in Heq. subst.
  by exists vb.
Qed.

Lemma join_element_blank (x : Value) : join_element (blank x) = join_element x.
Proof. by destruct x. Qed.

End Ref_more.

(** X6. Class and id put together give the Ref back: for a Ref of two or
    more segments, [new Ref(ref.class, ref.id)] is a Ref that [equals] the
    original. *)
Theorem Ref_class_id_reassemble (h : heap) (this : loc) (v : string) :
  h !! this = Some (ORef v) →
  (2 ≤ length (split "/" v))%nat →
  ∃ h',
    (do c <- Ref.class this;
     do i <- Ref.id this;
     do r <- Ref.constructor [VObj c; i];
     Ref.equals r (VObj this)) h
    = (Normal true, h').
Proof.
  intros Hthis (c0 & i0 & -> & Hi & _)%segments_snoc.
  destruct (class_snoc h this c0 i0 Hthis Hi) as (r1 & Hr1 & Hclass).
  set (h1 := <[r1 := ORef c0]> h) in *.
  assert (h1 !! this = Some (ORef (c0 +:+ "/" +:+ i0))) as Hthis1
    by (by apply insert_unused_preserves).
  assert (h1 !! r1 = Some (ORef c0)) as Hc by apply lookup_insert_eq.
  destruct (constructor_segments h1 [VObj r1; VStr i0] [c0; i0])
    as (r2 & Hr2 & Hnew).
  { constructor; [by apply segment_ref |].
    constructor; [apply segment_string | constructor]. }
  eexists. unfold bind at 1. rewrite Hclass.
  unfold bind at 1. rewrite (id_snoc h1 this c0 i0 Hthis1 Hi).
  unfold bind at 1. rewrite Hnew.
  erewrite equals_Ref;
    [| apply lookup_insert_eq | by apply insert_unused_preserves].
  simpl. by rewrite String.eqb_refl.
Qed.

Lemma Ref_class_id_reassemble_witness :
  let h : heap := {[ 1%positive := ORef "classes/spells/42" ]} in
  h !! 1%positive = Some (ORef "classes/spells/42") ∧
  (2 ≤ length (split "/" "classes/spells/42"))%nat ∧
  ∃ h',
    (do c <- Ref.class 1%positive;
     do i <- Ref.id 1%positive;
     do r <- Ref.constructor [VObj c; i];
     Ref.equals r (VObj 1%positive)) h
    = (Normal true, h').
Proof.
  intros h.
  assert (2 ≤ length (split "/" "classes/spells/42"))%nat as Hlen
    by (vm_compute; lia).
  split; [reflexivity |]. split; [exact Hlen |].
  exact (Ref_class_id_reassemble h 1%positive "classes/spells/42"
           eq_refl Hlen).
Defined.

(** X7. For segments that contain no slash, decomposition undoes
    construction: the Ref built from the strings [S ++ [s]], with [S] not
    empty, has a value that splits back into exactly these strings, has [s]
    as id and as class a new Ref whose value is [S] joined; the Ref built
    from one such string has no id and is its own class. *)
Theorem Ref_of_slash_free_segments (h : heap) :
  (∀ (S : list string) (s : string),
     S ≠ [] → Forall (λ x, occurs "/" x = false) (S ++ [s]) →
     ∃ r k v h1,
       Ref.constructor (VStr <$> S ++ [s]) h = (Normal r, h1) ∧
       h1 !! r = Some (ORef v) ∧ split "/" v = S ++ [s] ∧
       Ref.id r h1 = (Normal (VStr s), h1) ∧
       h1 !! k = None ∧
       Ref.class r h1 = (Normal k, <[k := ORef (join "/" S)]> h1)) ∧
  (∀ s : string,
     occurs "/" s = false →
     ∃ r h1,
       Ref.constructor [VStr s] h = (Normal r, h1) ∧
       Ref.id r h1
       = (Throw (InvalidValue "The Ref does not have an id."), h1) ∧
       Ref.class r h1 = (Normal r, h1)).
Proof.
  split.
  - intros S s Hne HS.
    destruct (constructor_segments h (VStr <$> S ++ [s]) (S ++ [s]))
      as (r & Hr & Hnew).
    { clear. induction (S ++ [s]) as [|x l IH]; simpl; constructor;
        [constructor | done]. }
    assert (split "/" (join "/" (S ++ [s])) = S ++ [s]) as Hsplit.
    { apply split_join; [| done]. by destruct S. }
    rewrite (join_snoc "/" S s Hne) in Hnew, Hsplit.
    apply Forall_app in HS as [_ Hs]. apply Forall_inv in Hs.
    set (h1 := <[r := ORef (join "/" S +:+ "/" +:+ s)]> h) in *.
    assert (h1 !! r = Some (ORef (join "/" S +:+ "/" +:+ s))) as Hthis
      by apply lookup_insert_eq.
    destruct (class_snoc h1 r _ s Hthis Hs) as (k & Hk & Hclass).
    exists r, k, (join "/" S +:+ "/" +:+ s), h1.
    rewrite (id_snoc h1 r _ s Hthis Hs). done.
  - intros s Hs.
    destruct (constructor_segments h [VStr s] [s]) as (r & Hr & Hnew);
      [repeat constructor |].
    simpl in Hnew. set (h1 := <[r := ORef s]> h) in *.
    assert (h1 !! r = Some (ORef s)) as Hthis by apply lookup_insert_eq.
    assert (length (split "/" s) = 1%nat) as Hone
      by (by apply split_single_iff).
    exists r, h1.
    by rewrite (id_single _ _ _ Hthis Hone), (class_single _ _ _ Hthis Hone).
Qed.

Lemma Ref_of_slash_free_segments_witness :
  (["classes"; "spells"] ≠ [] ∧
   Forall (λ x, occurs "/" x = false) (["classes"; "spells"] ++ ["42"])) ∧
  ∃ r k v h1,
    Ref.constructor [VStr "classes"; VStr "spells"; VStr "42"] ∅
    = (Normal r, h1) ∧
    h1 !! r = Some (ORef v) ∧
    split "/" v = ["classes"; "spells"; "42"] ∧
    Ref.id r h1 = (Normal (VStr "42"), h1) ∧
    h1 !! k = None ∧
    Ref.class r h1 = (Normal k, <[k := ORef "classes/spells"]> h1).
Proof.
  assert (Forall (λ x, occurs "/" x = false) (["classes"; "spells"] ++ ["42"]))
    as HS by (repeat constructor).
  split; [by split |].
  exact (proj1 (Ref_of_slash_free_segments ∅) ["classes"; "spells"] "42"
           ltac:(discriminate) HS).
Defined.

(** X8. [equals] is transitive, and Refs that are equal answer every query
    alike: the same [id], or the same failure of it, and the same string
    form. *)
Theorem Ref_equals_transitive_congruent (h : heap) (a b c : loc) :
  Ref.equals a (VObj b) h = (Normal true, h) →
  (Ref.equals b (VObj c) h = (Normal true, h) →
   Ref.equals a (VObj c) h = (Normal true, h)) ∧
  Ref.id a h = Ref.id b h ∧
  Ref.toString a h = Ref.toString b h.
Proof.
  intros (v & Ha & Hb)%equals_true_inv. split_and!.
  - intros (v' & Hb' & Hc)%equals_true_inv.
    assert (v' = v) as -> by congruence.
    rewrite (equals_Ref _ _ _ _ _ Ha Hc). by rewrite String.eqb_refl.
  - unfold Ref.id, bind.
    by rewrite (Ref_value_Some _ _ _ Ha), (Ref_value_Some _ _ _ Hb).
  - unfold Ref.toString.
    by rewrite (Ref_value_Some _ _ _ Ha), (Ref_value_Some _ _ _ Hb).
Qed.

Lemma Ref_equals_transitive_congruent_witness :
  let h : heap :=
    {[ 1%positive := ORef "classes/x"; 2%positive := ORef "classes/x";
       3%positive := ORef "classes/x" ]} in
  Ref.equals 1%positive (VObj 2%positive) h = (Normal true, h) ∧
  Ref.equals 2%positive (VObj 3%positive) h = (Normal true, h) ∧
  Ref.equals 1%positive (VObj 3%positive) h = (Normal true, h) ∧
  Ref.id 1%positive h = Ref.id 2%positive h.
Proof.
  intros h.
  assert (Ref.equals 1%positive (VObj 2%positive) h = (Normal true, h))
    as H12 by reflexivity.
  assert (Ref.equals 2%positive (VObj 3%positive) h = (Normal true, h))
    as H23 by reflexivity.
  destruct (Ref_equals_transitive_congruent h 1%positive 2%positive
              3%positive H12) as (Htrans & Hid & _).
  split; [exact H12 |]. split; [exact H23 |].
  split; [exact (Htrans H23) | exact Hid].
Defined.

(** X9. An [undefined] or [null] argument of the constructor counts as an
    empty segment: the call does what it does with the empty string in its
    place. *)
Theorem Ref_constructor_blank_segments (args : list Value) (h : heap) :
  Ref.constructor args h = Ref.constructor (blank <$> args) h.
Proof.
  assert (mapM join_element (blank <$> args) = mapM join_element args) as Heq.
  { induction args as [|x args IH]; [done |].
    rewrite fmap_cons. cbn [mapM]. by rewrite join_element_blank, IH. }
  unfold Ref.constructor, Array_join. cbv zeta. by rewrite Heq.
Qed.

(** X10. A Ref passed alone to the constructor is copied: [new Ref(ref)] is
    another object, it [equals] the first, and [toString] and [valueOf] of
    both give the value of the first. *)
Theorem Ref_copy_equals (h : heap) (this : loc) (v : string) :
  h !! this = Some (ORef v) →
  ∃ r h',
    Ref.constructor [VObj this] h = (Normal r, h') ∧
    r ≠ this ∧
    Ref.equals r (VObj this) h' = (Normal true, h') ∧
    Ref.toString r h' = (Normal v, h') ∧
    Ref.valueOf r h' = (Normal v, h') ∧
    Ref.toString this h' = (Normal v, h').
Proof.
  intros Hthis.
  destruct (constructor_segments h [VObj this] [v]) as (r & Hr & Hnew).
  { constructor; [by apply segment_ref | constructor]. }
  simpl in Hnew. set (h' := <[r := ORef v]> h) in *.
  assert (h' !! r = Some (ORef v)) as Hr' by apply lookup_insert_eq.
  assert (h' !! this = Some (ORef v)) as Hthis'
    by (by apply insert_unused_preserves).
  exists r, h'. split_and!; try done.
  - intros ->. congruence.
  - rewrite (equals_Ref _ _ _ _ _ Hr' Hthis'). by rewrite String.eqb_refl.
  - by apply Ref_value_Some.
  - by apply Ref_value_Some.
  - by apply Ref_value_Some.
Qed.

Lemma Ref_copy_equals_witness :
  let h : heap := {[ 1%positive := ORef "databases" ]} in
  h !! 1%positive = Some (ORef "databases") ∧
  ∃ r h',
    Ref.constructor [VObj 1%positive] h = (Normal r, h') ∧
    r ≠ 1%positive ∧
    Ref.equals r (VObj 1%positive) h' = (Normal true, h') ∧
    Ref.toString r h' = (Normal "databases", h') ∧
    Ref.valueOf r h' = (Normal "databases", h') ∧
    Ref.toString 1%positive h' = (Normal "databases", h').
Proof.
  intros h. split; [reflexivity |].
  exact (Ref_copy_equals h 1%positive "databases" eq_refl).
Defined.

Lemma split_segments_free (sep : ascii) (s : string) :
  Forall (λ x, occurs sep x = false) (split sep s).
Proof.
  induction s as [|c s IH]; simpl; [by repeat constructor |].
  destruct (Ascii.eqb c sep) eqn:Hc; [by constructor |].
  destruct (split sep s) as [|p ps]; [by repeat constructor; simpl; rewrite Hc |].
  apply Forall_cons in IH as [Hp Hps].
  constructor; [| done]. simpl. by rewrite Hc, Hp.
Qed.

(** X11. Taking the class again and again ends at the first segment: after
    at least as many steps as the value has slashes, the result is a Ref
    whose value is the first segment of the original, and which is its own
    class. *)
Theorem Ref_class_reaches_root (n : nat) (h : heap) (this : loc) (v : string) :
  h !! this = Some (ORef v) →
  (length (split "/" v) - 1 ≤ n)%nat →
  ∃ root s h',
    class_iter n this h = (Normal root, h') ∧
    head (split "/" v) = Some s ∧
    h' !! root = Some (ORef s) ∧
    Ref.class root h' = (Normal root, h').
Proof.
  revert h this v. induction n as [|n IH]; intros h this v Hthis Hn;
    pose proof (split_length_pos "/" v) as Hpos.
  - assert (length (split "/" v) = 1%nat) as Hone by lia.
    pose proof Hone as Hfree. apply split_single_iff in Hfree.
    exists this, v, h. rewrite (split_free _ _ Hfree).
    split_and!; try done. by apply (class_single h this v).
  - destruct (decide (length (split "/" v) = 1%nat)) as [Hone|Hmore].
    + destruct (IH h this v Hthis) as (root & s & h' & Hiter & Hrest); [lia |].
      exists root, s, h'. split; [| done].
      simpl. unfold bind. by rewrite (class_single _ _ _ Hthis Hone).
    + destruct (segments_snoc v) as (c & i & -> & Hi & Hsplit); [lia |].
      destruct (class_snoc h this c i Hthis Hi) as (r & Hr & Hclass).
      destruct (IH (<[r := ORef c]> h) r c) as (root & s & h' & Hiter & Hs & Hrest);
        [apply lookup_insert_eq | rewrite Hsplit, length_app in Hn; simpl in Hn; lia |].
      exists root, s, h'. split; [| split; [| done]].
      * simpl. unfold bind. by rewrite Hclass.
      * rewrite Hsplit. pose proof (split_not_nil "/" c).
        by destruct (split "/" c).
Qed.

Lemma Ref_class_reaches_root_witness :
  let h : heap := {[ 1%positive := ORef "classes/spells/42" ]} in
  (h !! 1%positive = Some (ORef "classes/spells/42") ∧
   (length (split "/" "classes/spells/42") - 1 ≤ 5)%nat) ∧
  ∃ root s h',
    class_iter 5 1%positive h = (Normal root, h') ∧
    head (split "/" "classes/spells/42") = Some s ∧
    h' !! root = Some (ORef s) ∧
    Ref.class root h' = (Normal root, h').
Proof.
  intros h.
  assert (length (split "/" "classes/spells/42") - 1 ≤ 5)%nat as Hn
    by (vm_compute; lia).
  split; [split; [reflexivity | exact Hn] |].
  exact (Ref_class_reaches_root 5 h 1%positive "classes/spells/42" eq_refl Hn).
Defined.

(** ** More on SetRef *)

(** X12. [inspect] of a SetRef does not show the query.  It reads
    [this.value], a property that a SetRef does not have, so that the text
    is ['SetRef(undefined)'] for every SetRef. *)
Theorem SetRef_inspect_ignores_query (h : heap) (this : loc) (q : Value) :
  h !! this = Some (OSetRef q) →
  SetRef.inspect this h = (Normal "SetRef(undefined)", h).
Proof.
  intros Hthis. unfold SetRef.inspect, bind.
  rewrite (Get_object h this _ "value") by (done || set_solver).
  done.
Qed.

Lemma SetRef_inspect_ignores_query_witness :
  let h : heap := {[ 1%positive := OSetRef (VStr "match") ]} in
  h !! 1%positive = Some (OSetRef (VStr "match")) ∧
  SetRef.inspect 1%positive h = (Normal "SetRef(undefined)", h).
Proof.
  intros h. split; [reflexivity |].
  exact (SetRef_inspect_ignores_query h 1%positive (VStr "match") eq_refl).
Defined.

(** X13. A SetRef carries its query untouched: what the constructor was
    given is what [query] reads and what [toJSON] puts under ['@set'], the
    same value and not a copy or an encoding of it. *)
Theorem SetRef_carries_query (h : heap) (q : Value) :
  ∃ s j h1 h2,
    SetRef.constructor q h = (Normal s, h1) ∧
    SetRef.query s h1 = (Normal q, h1) ∧
    SetRef.toJSON s h1 = (Normal j, h2) ∧
    s ≠ j ∧
    h2 !! j = Some (tagged "@set" q) ∧
    Get (VObj s) "query" h2 = (Normal q, h2).
Proof.
  destruct (alloc_new (OSetRef q) h) as (s & Hs & Hnew).
  set (h1 := <[s := OSetRef q]> h) in *.
  assert (h1 !! s = Some (OSetRef q)) as Hs1 by apply lookup_insert_eq.
  destruct (alloc_new (tagged "@set" q) h1) as (j & Hj & Hjson).
  exists s, j, h1, (<[j := tagged "@set" q]> h1).
  assert (SetRef.query s h1 = (Normal q, h1)) as Hquery.
  { unfold SetRef.query, bind. by rewrite (load_Some _ _ _ Hs1). }
  split_and!; try done.
  - unfold SetRef.toJSON, bind. by rewrite Hquery.
  - intros ->. congruence.
  - apply lookup_insert_eq.
  - rewrite (Get_object _ s (OSetRef q));
      [done | set_solver | by apply insert_unused_preserves].
Qed.

(** ** More on FaunaTime and FaunaDate *)

Section temporal_more.

Implicit Types (h : heap) (d r : loc) (t : Z) (s : string) (v : Value).

Lemma instanceof_Date_other h v :
  valid h v → ¬ is_Date h v → instanceof_Date v h = (Normal false, h).
Proof.
  intros Hvalid Hnot. destruct v as [| |b|s|l]; try done.
  destruct Hvalid as [o Hl]. unfold instanceof_Date, bind.
  rewrite (load_Some _ _ _ Hl). destruct o; try done.
  destruct Hnot. by exists l, tv.
Qed.

Lemma FaunaTime_from_Date h d t :
  h !! d = Some (ODate (Some t)) →
  FaunaTime.constructor (VObj d) h
  = (Normal (fresh (dom h)), <[fresh (dom h) := OFaunaTime (iso_string t)]> h).
Proof.
  intros Hd. unfold FaunaTime.constructor, bind.
  by rewrite (instanceof_Date_Date _ _ _ Hd), (toISOString_valid _ _ _ Hd).
Qed.

Lemma FaunaDate_from_Date h d t :
  h !! d = Some (ODate (Some t)) →
  FaunaDate.constructor (VObj d) h
  = (Normal (fresh (dom h)),
     <[fresh (dom h) :=
         OFaunaDate (VStr (String.substring 0 10 (iso_string t)))]> h).
Proof.
  intros Hd. unfold FaunaDate.constructor, bind.
  rewrite (instanceof_Date_Date _ _ _ Hd), (toISOString_valid _ _ _ Hd).
  unfold ret at 1. by rewrite (String_slice_prefix _ 10).
Qed.

(** What a successful construction was given. *)
Lemma FaunaTime_constructor_inv h v r h' :
  FaunaTime.constructor v h = (Normal r, h') →
  ∃ x, h' = <[r := OFaunaTime x]> h ∧ h !! r = None ∧
       ((v = VStr x ∧ endsWith x "Z" = true) ∨
        (∃ d t, v = VObj d ∧ h !! d = Some (ODate (Some t)) ∧
                x = iso_string t)).
Proof.
  unfold FaunaTime.constructor, instanceof_Date, Date_toISOString, bind, load.
  destruct v as [| |b|s|l]; simpl; try done.
  - destruct (endsWith s "Z") eqn:Hz; simpl; [| done].
    intros [= <- <-]. exists s. split_and!; [done | apply fresh_unused | by left].
  - destruct (h !! l) as [o|] eqn:Hl; simpl; [| done].
    destruct o as [| | | | |[t|]| |]; simpl; rewrite ?Hl; simpl; try done.
    intros [= <- <-]. exists (iso_string t).
    split_and!; [done | apply fresh_unused |]. right. by exists l, t.
Qed.

Lemma substring_prefix_le (a b : string) (n : nat) :
  (n ≤ String.length a)%nat →
  String.substring 0 n (a +:+ b) = String.substring 0 n a.
Proof.
  revert n. induction a as [|c a IH]; intros [|n] Hn; simpl in *;
    try done; try lia.
  - by destruct b.
  - rewrite IH by lia. done.
Qed.

Lemma length_date_string_ge (day : Z) :
  (10 ≤ String.length (date_string day))%nat.
Proof.
  unfold date_string, year_string.
  destruct (_ && _); rewrite !length_append, !length_digits; simpl; lia.
Qed.

Lemma date_prefix_depends_on_day t :
  String.substring 0 10 (iso_string t)
  = String.substring 0 10 (date_string (Day t)).
Proof.
  unfold iso_string. apply substring_prefix_le, length_date_string_ge.
Qed.

End temporal_more.

(** X14. Every FaunaTime that the constructor returns holds a string that
    ends with ['Z'], whatever it was built from. *)
Theorem FaunaTime_value_ends_with_Z
    (h h' : heap) (v : Value) (r : loc) :
  FaunaTime.constructor v h = (Normal r, h') →
  ∃ p, h' !! r = Some (OFaunaTime (p +:+ "Z")) ∧
       FaunaTime.value r h' = (Normal (p +:+ "Z"), h').
Proof.
  intros (x & -> & Hr & Hcase)%FaunaTime_constructor_inv.
  assert (∃ p, x = p +:+ "Z") as [p ->].
  { destruct Hcase as [[_ Hz]|(d & t & _ & _ & ->)];
      [by apply endsWith_iff | apply iso_string_ends_with_Z]. }
  exists p. split; [apply lookup_insert_eq |].
  unfold FaunaTime.value, bind. by rewrite (load_Some _ _ (OFaunaTime (p +:+ "Z")))
    by apply lookup_insert_eq.
Qed.

Lemma FaunaTime_value_ends_with_Z_witness :
  let h : heap := {[ 1%positive := ODate (Some 0) ]} in
  ∃ r h',
    FaunaTime.constructor (VObj 1%positive) h = (Normal r, h') ∧
    ∃ p, h' !! r = Some (OFaunaTime (p +:+ "Z")) ∧
         FaunaTime.value r h' = (Normal (p +:+ "Z"), h').
Proof.
  intros h. eexists _, _. split; [reflexivity |].
  eapply (FaunaTime_value_ends_with_Z h _ (VObj 1%positive)). reflexivity.
Defined.

(** X16. The FaunaDate constructor takes anything that is not a Date as it
    is: it never fails, and [value] gives back the very argument, be it a
    malformed string, [undefined] or an object. *)
Theorem FaunaDate_keeps_non_dates (h : heap) (v : Value) :
  valid h v → ¬ is_Date h v →
  ∃ r, h !! r = None ∧
       FaunaDate.constructor v h = (Normal r, <[r := OFaunaDate v]> h) ∧
       FaunaDate.value r (<[r := OFaunaDate v]> h)
       = (Normal v, <[r := OFaunaDate v]> h).
Proof.
  intros Hvalid Hnot. exists (fresh (dom h)).
  split_and!; [apply fresh_unused | |].
  - unfold FaunaDate.constructor, bind.
    by rewrite (instanceof_Date_other _ _ Hvalid Hnot).
  - unfold FaunaDate.value, bind.
    by rewrite (load_Some _ _ (OFaunaDate v)) by apply lookup_insert_eq.
Qed.

Lemma FaunaDate_keeps_non_dates_witness :
  (valid (∅ : heap) (VStr "not a date") ∧
   ¬ is_Date (∅ : heap) (VStr "not a date")) ∧
  ∃ r, (∅ : heap) !! r = None ∧
       FaunaDate.constructor (VStr "not a date") ∅
       = (Normal r, <[r := OFaunaDate (VStr "not a date")]> ∅) ∧
       FaunaDate.value r (<[r := OFaunaDate (VStr "not a date")]> ∅)
       = (Normal (VStr "not a date"),
          <[r := OFaunaDate (VStr "not a date")]> ∅).
Proof.
  assert (¬ is_Date (∅ : heap) (VStr "not a date")) as Hnot
    by (by intros (l & tv & ? & _)).
  split; [by split |].
  exact (FaunaDate_keeps_non_dates ∅ (VStr "not a date") I Hnot).
Defined.

(** X17. The time of day does not reach a FaunaDate: two Dates whose time
    values fall on the same UTC day give the same stored value. *)
Theorem FaunaDate_same_day_same_value (h : heap) (d1 d2 : loc) (t1 t2 : Z) :
  h !! d1 = Some (ODate (Some t1)) →
  h !! d2 = Some (ODate (Some t2)) →
  Day t1 = Day t2 →
  FaunaDate.constructor (VObj d1) h = FaunaDate.constructor (VObj d2) h.
Proof.
  intros Hd1 Hd2 Hday.
  rewrite (FaunaDate_from_Date _ _ _ Hd1), (FaunaDate_from_Date _ _ _ Hd2).
  by rewrite !date_prefix_depends_on_day, Hday.
Qed.

Lemma FaunaDate_same_day_same_value_witness :
  let h : heap := {[ 1%positive := ODate (Some 1686787200000);
                     2%positive := ODate (Some 1686873599000) ]} in
  (h !! 1%positive = Some (ODate (Some 1686787200000)) ∧
   h !! 2%positive = Some (ODate (Some 1686873599000)) ∧
   Day 1686787200000 = Day 1686873599000) ∧
  FaunaDate.constructor (VObj 1%positive) h
  = FaunaDate.constructor (VObj 2%positive) h.
Proof.
  intros h. split; [by split_and! |].
  exact (FaunaDate_same_day_same_value h 1%positive 2%positive
           1686787200000 1686873599000 eq_refl eq_refl eq_refl).
Defined.

(** ** Reading back what [toISOString] writes *)

Section parsing.

Implicit Types (n acc day t y : Z) (w : nat) (s rest : string).

Lemma digit_of_digit n : digit_of (digit n) = Some (n mod 10).
Proof.
  unfold digit_of, digit.
  pose proof (Z.mod_pos_bound n 10 ltac:(lia)) as Hmod.
  rewrite nat_ascii_embedding by lia.
  replace (Z.of_nat (48 + Z.to_nat (n mod 10))) with (48 + n mod 10) by lia.
  replace ((48 <=? 48 + n mod 10) && (48 + n mod 10 <=? 57)) with true
    by (symmetry; apply andb_true_iff; lia).
  f_equal. lia.
Qed.

Lemma digit_not_sign n (c : ascii) :
  c = "+"%char ∨ c = "-"%char → Ascii.eqb (digit n) c = false.
Proof.
  intros Hc. apply Ascii.eqb_neq. intros Heq.
  apply (f_equal nat_of_ascii) in Heq. unfold digit in Heq.
  pose proof (Z.mod_pos_bound n 10 ltac:(lia)) as Hmod.
  rewrite nat_ascii_embedding in Heq by lia.
  destruct Hc as [-> | ->].
  - change (nat_of_ascii "+") with 43%nat in Heq. lia.
  - change (nat_of_ascii "-") with 45%nat in Heq. lia.
Qed.

Lemma number_from_app acc s rest :
  number_from acc (s +:+ rest)
  = number_from acc s ≫= λ acc', number_from acc' rest.
Proof.
  revert acc. induction s as [|c s IH]; intros acc; simpl; [done |].
  destruct (digit_of c); [apply IH | done].
Qed.

Lemma number_from_digits w acc n :
  number_from acc (digits w n) = Some (acc * 10 ^ Z.of_nat w + n mod 10 ^ Z.of_nat w).
Proof.
  revert acc n. induction w as [|w IH]; intros acc n.
  - simpl. f_equal. rewrite Z.mod_1_r. lia.
  - cbn [digits]. rewrite number_from_app, IH.
    cbn [mbind option_bind number_from]. rewrite digit_of_digit. f_equal.
    rewrite Nat2Z.inj_succ, Z.pow_succ_r by lia.
    rewrite (Z.rem_mul_r n 10 (10 ^ Z.of_nat w)) by lia. lia.
Qed.

(** A field of [w] digits reads back the number that was written. *)
Lemma field_digits w n rest :
  0 ≤ n < 10 ^ Z.of_nat w →
  field w (digits w n +:+ rest) = Some (n, rest).
Proof.
  intros Hn. unfold field.
  rewrite length_append, length_digits.
  replace (w <=? w + String.length rest)%nat with true
    by (symmetry; apply Nat.leb_le; lia).
  rewrite <-(length_digits w n) at 1. rewrite substring_prefix.
  rewrite number_from_digits, Z.mod_small by done.
  replace (w + String.length rest - w)%nat with (String.length rest) by lia.
  rewrite <-(length_digits w n) at 2. rewrite substring_suffix.
  repeat f_equal; lia.
Qed.

Lemma append_char (c : ascii) s : String c EmptyString +:+ s = String c s.
Proof. done. Qed.

Lemma expect_cons (c : ascii) s : expect c (String c s) = Some s.
Proof. simpl. by rewrite Ascii.eqb_refl. Qed.

Lemma parse_year_plus s : parse_year (String "+" s) = field 6 s.
Proof. done. Qed.

Lemma parse_year_minus s :
  parse_year (String "-" s)
  = match field 6 s with
    | Some (y, rest) => if y =? 0 then None else Some (- y, rest)
    | None => None
    end.
Proof. done. Qed.

Lemma parse_year_string y rest :
  -999999 ≤ y ≤ 999999 →
  parse_year (year_string y +:+ rest) = Some (y, rest).
Proof.
  intros Hy. unfold year_string.
  destruct ((0 <=? y) && (y <=? 9999)) eqn:Hfour.
  - apply andb_true_iff in Hfour as [Hlo Hhi].
    apply Z.leb_le in Hlo. apply Z.leb_le in Hhi.
    unfold parse_year.
    destruct (digits 4 y +:+ rest) as [|c s'] eqn:Hs; [done |].
    assert (c = digit (y / 10 / 10 / 10)) as -> by (by injection Hs).
    rewrite !digit_not_sign by auto. rewrite <-Hs.
    apply field_digits. simpl. lia.
  - apply andb_false_iff in Hfour.
    assert (0 ≤ Z.abs y < 10 ^ Z.of_nat 6) as Habs by (simpl; lia).
    rewrite append_assoc.
    destruct (Z.ltb_spec y 0) as [Hneg|Hpos]; rewrite append_char.
    + rewrite parse_year_minus, (field_digits 6 _ _ Habs).
      replace (Z.abs y =? 0) with false by (symmetry; apply Z.eqb_neq; lia).
      repeat f_equal; lia.
    + rewrite parse_year_plus, (field_digits 6 _ _ Habs).
      repeat f_equal; lia.
Qed.

(** The table of months read backwards: the day within the year is the
    start of its month plus the day of the month, which the month has. *)
Lemma month_date_inverse (dwy leap : Z) :
  0 ≤ leap ≤ 1 → 0 ≤ dwy < 365 + leap →
  1 ≤ (month_date dwy leap).2
    ≤ DaysInMonth (month_date dwy leap).1 leap ∧
  month_start (month_date dwy leap).1 leap + (month_date dwy leap).2 - 1 = dwy.
Proof.
  intros Hleap Hdwy. unfold month_date.
  repeat (match goal with
          | |- context [?a <? ?b] => destruct (Z.ltb_spec a b)
          end; [unfold DaysInMonth, month_start; simpl; lia |]).
  unfold DaysInMonth, month_start. simpl. lia.
Qed.

Lemma InLeapYear_range y : 0 ≤ InLeapYear y ≤ 1.
Proof. unfold InLeapYear. destruct (_ && _); lia. Qed.

Lemma DayWithinYear_range day :
  0 ≤ DayWithinYear day < 365 + InLeapYear (YearFromDay day).
Proof.
  unfold DayWithinYear. pose proof (YearFromDay_bracket day) as Hyear.
  rewrite DayFromYear_succ in Hyear. lia.
Qed.

(** [MakeDay] undoes the calendar. *)
Lemma MakeDay_fields day :
  MakeDay (YearFromDay day) (MonthFromDay day) (DateFromDay day) = day.
Proof.
  pose proof (date_fields_range day) as [Hm _].
  pose proof (month_date_inverse _ _ (InLeapYear_range (YearFromDay day))
                (DayWithinYear_range day)) as [_ Hinv].
  unfold MakeDay. cbv zeta.
  rewrite (Z.div_small (MonthFromDay day) 12), (Z.mod_small (MonthFromDay day) 12)
    by lia.
  rewrite Z.add_0_r. unfold MonthFromDay, DateFromDay, DayWithinYear in *. lia.
Qed.

Lemma parse_date_string day rest :
  -999999 ≤ YearFromDay day ≤ 999999 →
  parse_date (date_string day +:+ rest) = Some (day, rest).
Proof.
  intros Hy. unfold parse_date, date_string.
  pose proof (date_fields_range day) as [Hm Hd].
  pose proof (month_date_inverse _ _ (InLeapYear_range (YearFromDay day))
                (DayWithinYear_range day)) as [Hlast _].
  fold (MonthFromDay day) (DateFromDay day) in Hlast.
  assert (0 ≤ MonthFromDay day + 1 < 10 ^ Z.of_nat 2) as Hm2 by (simpl; lia).
  assert (0 ≤ DateFromDay day < 10 ^ Z.of_nat 2) as Hd2 by (simpl; lia).
  rewrite !append_assoc, !append_char, (parse_year_string _ _ Hy).
  cbn [mbind option_bind]. rewrite expect_cons.
  cbn [mbind option_bind]. rewrite (field_digits 2 _ _ Hm2).
  cbn [mbind option_bind]. rewrite expect_cons.
  cbn [mbind option_bind]. rewrite (field_digits 2 _ _ Hd2).
  cbn [mbind option_bind].
  replace (MonthFromDay day + 1 - 1) with (MonthFromDay day) by lia.
  replace ((1 <=? MonthFromDay day + 1) && (MonthFromDay day + 1 <=? 12)
           && (1 <=? DateFromDay day)
           && (DateFromDay day
               <=? DaysInMonth (MonthFromDay day) (InLeapYear (YearFromDay day))))
    with true by (symmetry; rewrite !andb_true_iff, !Z.leb_le; lia).
  by rewrite MakeDay_fields.
Qed.

Lemma parse_time_string t :
  parse_time (time_string t +:+ "Z") = Some (t mod msPerDay).
Proof.
  unfold parse_time, time_string, HourFromTime, MinFromTime, SecFromTime,
    msFromTime.
  assert (0 ≤ (t / 3600000) mod 24 < 10 ^ Z.of_nat 2) as Hh
    by (pose proof (Z.mod_pos_bound (t / 3600000) 24); simpl; lia).
  assert (0 ≤ (t / 60000) mod 60 < 10 ^ Z.of_nat 2) as Hmin
    by (pose proof (Z.mod_pos_bound (t / 60000) 60); simpl; lia).
  assert (0 ≤ (t / 1000) mod 60 < 10 ^ Z.of_nat 2) as Hsec
    by (pose proof (Z.mod_pos_bound (t / 1000) 60); simpl; lia).
  assert (0 ≤ t mod 1000 < 10 ^ Z.of_nat 3) as Hms
    by (pose proof (Z.mod_pos_bound t 1000); simpl; lia).
  rewrite !append_assoc, !append_char.
  rewrite (field_digits 2 _ _ Hh). cbn [mbind option_bind].
  rewrite expect_cons. cbn [mbind option_bind].
  rewrite (field_digits 2 _ _ Hmin). cbn [mbind option_bind].
  rewrite expect_cons. cbn [mbind option_bind].
  rewrite (field_digits 2 _ _ Hsec). cbn [mbind option_bind].
  rewrite expect_cons. cbn [mbind option_bind].
  rewrite (field_digits 3 _ "Z" Hms). cbn [mbind option_bind].
  rewrite expect_cons. cbn [mbind option_bind String.eqb].
  replace (true && ((t / 3600000) mod 24 <=? 23) && ((t / 60000) mod 60 <=? 59)
           && ((t / 1000) mod 60 <=? 59))
    with true
    by (symmetry; rewrite !andb_true_iff, !Z.leb_le;
        pose proof (Z.mod_pos_bound (t / 3600000) 24);
        pose proof (Z.mod_pos_bound (t / 60000) 60);
        pose proof (Z.mod_pos_bound (t / 1000) 60); lia).
  f_equal. unfold MakeTime, msPerDay. Z.div_mod_to_equations. lia.
Qed.

(** The full form reads back as the time value, the date alone as the
    midnight that starts its day. *)
Lemma Date_parse_iso_string t :
  -999999 ≤ YearFromTime t ≤ 999999 →
  Date_parse (iso_string t) = Some t.
Proof.
  intros Hy. unfold Date_parse, iso_string.
  rewrite (parse_date_string _ _ Hy). cbn [mbind option_bind].
  rewrite append_char. cbn [Ascii.eqb Bool.eqb]. cbv iota.
  rewrite parse_time_string. cbn [mbind option_bind]. f_equal.
  unfold MakeDate, Day, msPerDay. Z.div_mod_to_equations. lia.
Qed.

Lemma Date_parse_date_string day :
  -999999 ≤ YearFromDay day ≤ 999999 →
  Date_parse (date_string day) = Some (day * msPerDay).
Proof.
  intros Hy. unfold Date_parse.
  rewrite <-(append_nil_r (date_string day)), (parse_date_string _ _ Hy).
  cbn [mbind option_bind]. f_equal. unfold MakeDate. lia.
Qed.

(** The years of the time values a Date can hold have at most six digits. *)
Lemma YearFromTime_range t :
  Z.abs t ≤ 8640000000000000 → -271822 ≤ YearFromTime t ≤ 275761.
Proof.
  intros Ht. unfold YearFromTime, YearFromDay, Day, msPerDay. cbv zeta.
  repeat match goal with
         | |- context [if ?b then _ else _] => destruct b
         end; Z.div_mod_to_equations; lia.
Qed.

Lemma TimeClip_range t : Z.abs t ≤ 8640000000000000 → TimeClip t = Some t.
Proof.
  intros Ht. unfold TimeClip.
  by replace (Z.abs t <=? 8640000000000000) with true
    by (symmetry; apply Z.leb_le; lia).
Qed.

End parsing.

(** X18. A Date survives the trip through a FaunaTime: for a Date with a
    time value in the range of Dates, the [date] of the FaunaTime built from
    it is a new Date with the same time value, to the millisecond. *)
Theorem FaunaTime_date_round_trip (h : heap) (d : loc) (t : Z) :
  h !! d = Some (ODate (Some t)) →
  Z.abs t ≤ 8640000000000000 →
  ∃ r d' h1 h2,
    FaunaTime.constructor (VObj d) h = (Normal r, h1) ∧
    FaunaTime.date r h1 = (Normal d', h2) ∧
    d' ≠ d ∧
    h2 !! d' = Some (ODate (Some t)) ∧
    h2 !! d = Some (ODate (Some t)).
Proof.
  intros Hd Ht.
  pose proof (YearFromTime_range t Ht) as Hy.
  set (r := fresh (dom h)).
  set (h1 := <[r := OFaunaTime (iso_string t)]> h).
  assert (h1 !! r = Some (OFaunaTime (iso_string t))) as Hr
    by apply lookup_insert_eq.
  assert (h1 !! d = Some (ODate (Some t))) as Hd1
    by (apply insert_unused_preserves; [apply fresh_unused | done]).
  destruct (alloc_new (ODate (Some t)) h1) as (d' & Hd' & Halloc).
  exists r, d', h1, (<[d' := ODate (Some t)]> h1). split_and!.
  - by apply FaunaTime_from_Date.
  - unfold FaunaTime.date, FaunaTime.value, bind.
    rewrite (load_Some _ _ _ Hr). simpl.
    rewrite Date_parse_iso_string by lia. by rewrite (TimeClip_range t Ht).
  - intros ->. congruence.
  - apply lookup_insert_eq.
  - by apply insert_unused_preserves.
Qed.

Lemma FaunaTime_date_round_trip_witness :
  let h : heap := {[ 1%positive := ODate (Some 1686873599123) ]} in
  (h !! 1%positive = Some (ODate (Some 1686873599123)) ∧
   Z.abs 1686873599123 ≤ 8640000000000000) ∧
  ∃ r d' h1 h2,
    FaunaTime.constructor (VObj 1%positive) h = (Normal r, h1) ∧
    FaunaTime.date r h1 = (Normal d', h2) ∧
    d' ≠ 1%positive ∧
    h2 !! d' = Some (ODate (Some 1686873599123)) ∧
    h2 !! 1%positive = Some (ODate (Some 1686873599123)).
Proof.
  intros h.
  assert (Z.abs 1686873599123 ≤ 8640000000000000) as Ht by (simpl; lia).
  split; [by split |].
  exact (FaunaTime_date_round_trip h 1%positive 1686873599123 eq_refl Ht).
Defined.

(** X19. Through a FaunaDate a Date keeps its day and nothing else: for a
    Date in the years 0 to 9999, the [date] of the FaunaDate built from it
    is a new Date at midnight UTC of the same day. *)
Theorem FaunaDate_date_is_midnight (h : heap) (d : loc) (t : Z) :
  h !! d = Some (ODate (Some t)) →
  Z.abs t ≤ 8640000000000000 →
  0 ≤ YearFromTime t ≤ 9999 →
  ∃ r d' h1 h2,
    FaunaDate.constructor (VObj d) h = (Normal r, h1) ∧
    FaunaDate.date r h1 = (Normal d', h2) ∧
    d' ≠ d ∧
    h2 !! d' = Some (ODate (Some (Day t * msPerDay))) ∧
    Day (Day t * msPerDay) = Day t ∧
    (Day t * msPerDay) mod msPerDay = 0.
Proof.
  intros Hd Ht Hy.
  set (r := fresh (dom h)).
  set (h1 := <[r := OFaunaDate (VStr (date_string (Day t)))]> h).
  assert (h1 !! r = Some (OFaunaDate (VStr (date_string (Day t))))) as Hr
    by apply lookup_insert_eq.
  assert (h1 !! d = Some (ODate (Some t))) as Hd1
    by (apply insert_unused_preserves; [apply fresh_unused | done]).
  assert (Z.abs (Day t * msPerDay) ≤ 8640000000000000) as Hclip
    by (unfold Day, msPerDay; Z.div_mod_to_equations; lia).
  destruct (alloc_new (ODate (Some (Day t * msPerDay))) h1)
    as (d' & Hd' & Halloc).
  exists r, d', h1, (<[d' := ODate (Some (Day t * msPerDay))]> h1).
  split_and!.
  - rewrite (FaunaDate_from_Date _ _ _ Hd).
    by rewrite (iso_string_date_prefix t Hy).
  - unfold FaunaDate.date, FaunaDate.value, bind.
    rewrite (load_Some _ _ _ Hr). simpl.
    rewrite Date_parse_date_string by (unfold YearFromTime in Hy; lia).
    by rewrite (TimeClip_range _ Hclip).
  - intros ->. congruence.
  - apply lookup_insert_eq.
  - unfold Day, msPerDay. Z.div_mod_to_equations. lia.
  - unfold msPerDay. Z.div_mod_to_equations. lia.
Qed.

Lemma FaunaDate_date_is_midnight_witness :
  let h : heap := {[ 1%positive := ODate (Some 1686873599000) ]} in
  (h !! 1%positive = Some (ODate (Some 1686873599000)) ∧
   Z.abs 1686873599000 ≤ 8640000000000000 ∧
   0 ≤ YearFromTime 1686873599000 ≤ 9999) ∧
  ∃ r d' h1 h2,
    FaunaDate.constructor (VObj 1%positive) h = (Normal r, h1) ∧
    FaunaDate.date r h1 = (Normal d', h2) ∧
    d' ≠ 1%positive ∧
    h2 !! d' = Some (ODate (Some 1686787200000)).
Proof.
  intros h.
  assert (Z.abs 1686873599000 ≤ 8640000000000000) as Ht by (simpl; lia).
  assert (0 ≤ YearFromTime 1686873599000 ≤ 9999) as Hy
    by (vm_compute; split; discriminate).
  split; [by split |].
  destruct (FaunaDate_date_is_midnight h 1%positive 1686873599000
              eq_refl Ht Hy)
    as (r & d' & h1 & h2 & Hnew & Hdate & Hne & Hd' & _).
  by exists r, d', h1, h2.
Defined.

(** ** The text of [inspect] *)

Section quoting.

Implicit Types (c : ascii) (s R T : string).

Lemma escape_plain_or_special c :
  (escape c = String c EmptyString ∧ c ≠ backslash ∧ c ≠ quote_char)
  ∨ c ∈ specials.
Proof.
  destruct c as [[] [] [] [] [] [] [] []];
    first [ left; split_and!; [reflexivity | discriminate | discriminate]
          | right; apply (bool_decide_unpack _); vm_compute; exact I ].
Qed.

Lemma escape_special_head c :
  c ∈ specials → ∃ tail, escape c = String backslash tail.
Proof.
  intros Hc. unfold specials in Hc. simpl in Hc.
  repeat (apply elem_of_cons in Hc as [->|Hc]);
    try (by apply elem_of_nil in Hc); by eexists.
Qed.

Lemma escape_special_inj c1 c2 R1 R2 :
  c1 ∈ specials → c2 ∈ specials →
  escape c1 +:+ R1 = escape c2 +:+ R2 → c1 = c2 ∧ R1 = R2.
Proof.
  intros Hc1 Hc2. unfold specials in *. simpl in Hc1, Hc2.
  repeat (apply elem_of_cons in Hc1 as [->|Hc1]);
    try (by apply elem_of_nil in Hc1);
    repeat (apply elem_of_cons in Hc2 as [->|Hc2]);
    try (by apply elem_of_nil in Hc2);
    vm_compute; intros Heq; by simplify_eq.
Qed.

(** No escape is the start of another: what is written for a character can
    be told from what follows it. *)
Lemma escape_prefix_free c1 c2 R1 R2 :
  escape c1 +:+ R1 = escape c2 +:+ R2 → c1 = c2 ∧ R1 = R2.
Proof.
  destruct (escape_plain_or_special c1) as [(E1 & N1 & _)|S1],
    (escape_plain_or_special c2) as [(E2 & N2 & _)|S2].
  - rewrite E1, E2. simpl. by intros [= -> ->].
  - destruct (escape_special_head c2 S2) as [tail ->]. rewrite E1. simpl.
    by intros [= -> _].
  - destruct (escape_special_head c1 S1) as [tail ->]. rewrite E2. simpl.
    by intros [= <- _].
  - by apply escape_special_inj.
Qed.

Lemma escape_not_quote c R T : escape c +:+ R ≠ String quote_char T.
Proof.
  destruct (escape_plain_or_special c) as [(E & _ & N)|S].
  - rewrite E. simpl. by intros [= -> _].
  - destruct (escape_special_head c S) as [tail ->]. simpl. by intros [=].
Qed.

Lemma escape_all_inj s1 s2 T1 T2 :
  escape_all s1 +:+ String quote_char T1
  = escape_all s2 +:+ String quote_char T2 →
  s1 = s2.
Proof.
  revert s2. induction s1 as [|c1 s1 IH]; intros [|c2 s2]; simpl.
  - done.
  - rewrite append_assoc. intros Heq. symmetry in Heq.
    by apply escape_not_quote in Heq.
  - rewrite append_assoc. intros Heq. by apply escape_not_quote in Heq.
  - rewrite !append_assoc. intros [-> Heq]%escape_prefix_free.
    by rewrite (IH _ Heq).
Qed.

Lemma inspect_Ref (h : heap) (this : loc) (v : string) :
  h !! this = Some (ORef v) →
  Ref.inspect this h = (Normal ("Ref(" +:+ QuoteJSONString v +:+ ")"), h).
Proof.
  intros Hthis. unfold Ref.inspect, bind.
  rewrite (Get_object h this _ "value" ltac:(set_solver) Hthis). done.
Qed.

End quoting.

(** X20. The text that [inspect] gives for a Ref tells its value: the value
    is written between ['Ref('] and [')'] as JSON writes a string, and two
    Refs have the same text exactly when they have the same value. *)
Theorem Ref_inspect_tells_value (h : heap) (a b : loc) (va vb : string) :
  h !! a = Some (ORef va) →
  h !! b = Some (ORef vb) →
  Ref.inspect a h = (Normal ("Ref(" +:+ QuoteJSONString va +:+ ")"), h) ∧
  (Ref.inspect a h = Ref.inspect b h ↔ va = vb).
Proof.
  intros Ha Hb. rewrite (inspect_Ref _ _ _ Ha), (inspect_Ref _ _ _ Hb).
  split; [done |]. split; [| by intros ->].
  unfold QuoteJSONString. simpl. rewrite !append_assoc.
  intros [= Heq]. by apply escape_all_inj in Heq.
Qed.

Lemma Ref_inspect_tells_value_witness :
  let h : heap := {[ 1%positive := ORef "classes/x";
                     2%positive := ORef "classes/y" ]} in
  (h !! 1%positive = Some (ORef "classes/x") ∧
   h !! 2%positive = Some (ORef "classes/y")) ∧
  Ref.inspect 1%positive h ≠ Ref.inspect 2%positive h.
Proof.
  intros h. split; [by split |].
  destruct (Ref_inspect_tells_value h 1%positive 2%positive
              "classes/x" "classes/y" eq_refl eq_refl) as [_ Hiff].
  intros Heq. apply Hiff in Heq. discriminate Heq.
Defined.

(** ** From construction to the wire *)

Section wire.

Implicit Types (h : heap) (this : loc).

Lemma Ref_toJSON_new h this v :
  h !! this = Some (ORef v) →
  ∃ j, h !! j = None ∧
       Ref.toJSON this h = (Normal j, <[j := tagged "@ref" (VStr v)]> h).
Proof.
  intros Hthis. unfold Ref.toJSON, bind. rewrite (Ref_value_Some _ _ _ Hthis).
  apply alloc_new.
Qed.

Lemma FaunaTime_toJSON_new h this v :
  h !! this = Some (OFaunaTime v) →
  ∃ j, h !! j = None ∧
       FaunaTime.toJSON this h = (Normal j, <[j := tagged "@ts" (VStr v)]> h).
Proof.
  intros Hthis. unfold FaunaTime.toJSON, FaunaTime.value, bind.
  rewrite (load_Some _ _ _ Hthis). apply alloc_new.
Qed.

Lemma FaunaDate_toJSON_new h this v :
  h !! this = Some (OFaunaDate v) →
  ∃ j, h !! j = None ∧
       FaunaDate.toJSON this h = (Normal j, <[j := tagged "@date" v]> h).
Proof.
  intros Hthis. unfold FaunaDate.toJSON, FaunaDate.value, bind.
  rewrite (load_Some _ _ _ Hthis). apply alloc_new.
Qed.

Lemma FaunaTime_from_string h (p : string) :
  FaunaTime.constructor (VStr (p +:+ "Z")) h
  = (Normal (fresh (dom h)), <[fresh (dom h) := OFaunaTime (p +:+ "Z")]> h).
Proof.
  rewrite FaunaTime_string.
  by replace (endsWith (p +:+ "Z") "Z") with true
    by (symmetry; apply endsWith_iff; by exists p).
Qed.

End wire.

(** X21. What is built is what is sent.  A Ref built from segments encodes
    as ['@ref'] with the segments joined; a FaunaTime built from a string
    that ends with ['Z'] encodes as ['@ts'] with that string, and one built
    from a valid Date with its ISO-8601 form; a FaunaDate built from a value
    that is not a Date encodes as ['@date'] with that value. *)
Theorem constructed_values_on_the_wire (h : heap) :
  (∀ args strs,
     Forall2 (segment h) args strs →
     ∃ r j h1 h2,
       Ref.constructor args h = (Normal r, h1) ∧
       Ref.toJSON r h1 = (Normal j, h2) ∧
       h2 !! j = Some (tagged "@ref" (VStr (join "/" strs)))) ∧
  (∀ p : string,
     ∃ r j h1 h2,
       FaunaTime.constructor (VStr (p +:+ "Z")) h = (Normal r, h1) ∧
       FaunaTime.toJSON r h1 = (Normal j, h2) ∧
       h2 !! j = Some (tagged "@ts" (VStr (p +:+ "Z")))) ∧
  (∀ d t,
     h !! d = Some (ODate (Some t)) →
     ∃ r j h1 h2,
       FaunaTime.constructor (VObj d) h = (Normal r, h1) ∧
       FaunaTime.toJSON r h1 = (Normal j, h2) ∧
       h2 !! j = Some (tagged "@ts" (VStr (iso_string t)))) ∧
  (∀ v,
     valid h v → ¬ is_Date h v →
     ∃ r j h1 h2,
       FaunaDate.constructor v h = (Normal r, h1) ∧
       FaunaDate.toJSON r h1 = (Normal j, h2) ∧
       h2 !! j = Some (tagged "@date" v)).
Proof.
  split_and!.
  - intros args strs Hsegs.
    destruct (constructor_segments h args strs Hsegs) as (r & Hr & Hnew).
    destruct (Ref_toJSON_new (<[r := ORef (join "/" strs)]> h) r _
                ltac:(apply lookup_insert_eq)) as (j & Hj & Hjson).
    eexists r, j, _, _. split_and!; [done | done | apply lookup_insert_eq].
  - intros p.
    destruct (FaunaTime_toJSON_new
                (<[fresh (dom h) := OFaunaTime (p +:+ "Z")]> h) (fresh (dom h)) _
                ltac:(apply lookup_insert_eq)) as (j & Hj & Hjson).
    eexists _, j, _, _.
    split_and!; [apply FaunaTime_from_string | done | apply lookup_insert_eq].
  - intros d t Hd.
    destruct (FaunaTime_toJSON_new
                (<[fresh (dom h) := OFaunaTime (iso_string t)]> h)
                (fresh (dom h)) _ ltac:(apply lookup_insert_eq))
      as (j & Hj & Hjson).
    eexists _, j, _, _.
    split_and!; [by apply FaunaTime_from_Date | done | apply lookup_insert_eq].
  - intros v Hvalid Hnot.
    destruct (FaunaDate_toJSON_new
                (<[fresh (dom h) := OFaunaDate v]> h)
                (fresh (dom h)) _ ltac:(apply lookup_insert_eq))
      as (j & Hj & Hjson).
    eexists _, j, _, _. split_and!; [| done | apply lookup_insert_eq].
    unfold FaunaDate.constructor, bind.
    by rewrite (instanceof_Date_other _ _ Hvalid Hnot).
Qed.

Lemma constructed_values_on_the_wire_witness :
  let h : heap := {[ 1%positive := ODate (Some 1672531200000) ]} in
  (Forall2 (segment h) [VStr "classes"; VStr "x"] ["classes"; "x"] ∧
   ∃ r j h1 h2,
     Ref.constructor [VStr "classes"; VStr "x"] h = (Normal r, h1) ∧
     Ref.toJSON r h1 = (Normal j, h2) ∧
     h2 !! j = Some (OObject [("@ref", VStr "classes/x")])) ∧
  (h !! 1%positive = Some (ODate (Some 1672531200000)) ∧
   ∃ r j h1 h2,
     FaunaTime.constructor (VObj 1%positive) h = (Normal r, h1) ∧
     FaunaTime.toJSON r h1 = (Normal j, h2) ∧
     h2 !! j = Some (OObject [("@ts", VStr "2023-01-01T00:00:00.000Z")])) ∧
  (valid h (VStr "2023-06-15") ∧ ¬ is_Date h (VStr "2023-06-15") ∧
   ∃ r j h1 h2,
     FaunaDate.constructor (VStr "2023-06-15") h = (Normal r, h1) ∧
     FaunaDate.toJSON r h1 = (Normal j, h2) ∧
     h2 !! j = Some (OObject [("@date", VStr "2023-06-15")])).
Proof.
  intros h.
  destruct (constructed_values_on_the_wire h) as (HRef & _ & HTime & HDate).
  assert (Forall2 (segment h) [VStr "classes"; VStr "x"] ["classes"; "x"])
    as Hsegs by (repeat constructor).
  assert (¬ is_Date h (VStr "2023-06-15")) as Hnot
    by (by intros (l & tv & ? & _)).
  split; [| split].
  - split; [exact Hsegs | exact (HRef _ _ Hsegs)].
  - split; [reflexivity |]. exact (HTime 1%positive 1672531200000 eq_refl).
  - split; [exact I |]. split; [exact Hnot |].
    exact (HDate (VStr "2023-06-15") I Hnot).
Defined.

(** X22. A timestamp that arrives as a string is read back exactly: for the
    ISO-8601 form of any time value in the range of Dates, the FaunaTime
    built from the string has as [date] a Date of that time value. *)
Theorem FaunaTime_string_date (h : heap) (t : Z) :
  Z.abs t ≤ 8640000000000000 →
  ∃ r d h1 h2,
    FaunaTime.constructor (VStr (iso_string t)) h = (Normal r, h1) ∧
    FaunaTime.date r h1 = (Normal d, h2) ∧
    h2 !! d = Some (ODate (Some t)).
Proof.
  intros Ht. pose proof (YearFromTime_range t Ht) as Hy.
  destruct (iso_string_ends_with_Z t) as [p Hp].
  set (r := fresh (dom h)).
  set (h1 := <[r := OFaunaTime (iso_string t)]> h).
  assert (h1 !! r = Some (OFaunaTime (iso_string t))) as Hr
    by apply lookup_insert_eq.
  destruct (alloc_new (ODate (Some t)) h1) as (d & Hd & Halloc).
  exists r, d, h1, (<[d := ODate (Some t)]> h1). split_and!.
  - rewrite Hp. rewrite FaunaTime_from_string. by rewrite <-Hp.
  - unfold FaunaTime.date, FaunaTime.value, bind.
    rewrite (load_Some _ _ _ Hr). simpl.
    rewrite Date_parse_iso_string by lia. by rewrite (TimeClip_range t Ht).
  - apply lookup_insert_eq.
Qed.

Lemma FaunaTime_string_date_witness :
  Z.abs 1672531200000 ≤ 8640000000000000 ∧
  ∃ r d h1 h2,
    FaunaTime.constructor (VStr "2023-01-01T00:00:00.000Z") (∅ : heap)
    = (Normal r, h1) ∧
    FaunaTime.date r h1 = (Normal d, h2) ∧
    h2 !! d = Some (ODate (Some 1672531200000)).
Proof.
  assert (Z.abs 1672531200000 ≤ 8640000000000000) as Ht by (simpl; lia).
  split; [exact Ht |].
  exact (FaunaTime_string_date ∅ 1672531200000 Ht).
Defined.

(** ** Segments of the arguments and segments of the value *)

Section boundaries.

Implicit Types (s t : string) (strs : list string) (sep : ascii).

(** Splitting on both sides of a separator. *)
Lemma split_app_sep sep s t :
  split sep (s +:+ String sep t) = split sep s ++ split sep t.
Proof.
  induction s as [|c s IH]; simpl.
  - by rewrite Ascii.eqb_refl.
  - rewrite IH. destruct (Ascii.eqb c sep); [done |].
    pose proof (split_not_nil sep s). by destruct (split sep s).
Qed.

(** The segments of a joined string are the segments of its parts. *)
Lemma split_join_concat sep strs :
  strs ≠ [] →
  split sep (join (String sep EmptyString) strs) = concat (split sep <$> strs).
Proof.
  intros Hne. induction strs as [|s strs IH]; [done |].
  destruct strs as [|t strs]; [simpl; by rewrite app_nil_r |].
  change (join (String sep EmptyString) (s :: t :: strs))
    with (s +:+ String sep EmptyString
            +:+ join (String sep EmptyString) (t :: strs)).
  rewrite append_char, split_app_sep, IH by done. done.
Qed.

Lemma length_concat_split sep strs :
  (length strs ≤ length (concat (split sep <$> strs)))%nat ∧
  (Exists (λ s, occurs sep s = true) strs →
   (length strs < length (concat (split sep <$> strs)))%nat).
Proof.
  induction strs as [|s strs [IHle IHlt]].
  - split; [done |]. by intros ?%Exists_nil.
  - rewrite fmap_cons. cbn [concat length]. rewrite length_app. pose proof (split_length_pos sep s) as Hpos.
    split; [lia |]. intros [Hs|Hrest]%Exists_cons.
    + assert (length (split sep s) ≠ 1%nat) as Hmore.
      { intros Hone%split_single_iff. congruence. }
      lia.
    + specialize (IHlt Hrest). lia.
Qed.

End boundaries.

(** C10. Decomposition works on the joined string, not on the constructor's
    arguments.  The segments of the value are the segments of all the
    arguments one after the other, so that an argument with a slash in it
    counts for more than one segment.  When the last argument is [p/q], with
    no slash in [q], the id is [q] and not that argument, and the class is a
    new Ref of the other arguments and [p] joined: for the arguments ['a']
    and ['b/c'], the id ['c'] and the class ['a/b']. *)
Theorem Ref_decomposition_splits_inside_segments (h : heap) :
  (∀ (args : list Value) (strs : list string),
     strs ≠ [] →
     Forall2 (segment h) args strs →
     ∃ r v h1,
       Ref.constructor args h = (Normal r, h1) ∧
       h1 !! r = Some (ORef v) ∧
       split "/" v = concat (split "/" <$> strs) ∧
       (Exists (λ s, occurs "/" s = true) strs →
        (length args < length (split "/" v))%nat)) ∧
  (∀ (args : list Value) (strs : list string) (t p q : string),
     Forall2 (segment h) args (strs ++ [t]) →
     t = p +:+ "/" +:+ q →
     occurs "/" q = false →
     ∃ r k h1,
       Ref.constructor args h = (Normal r, h1) ∧
       Ref.id r h1 = (Normal (VStr q), h1) ∧
       Ref.id r h1 ≠ (Normal (VStr t), h1) ∧
       h1 !! k = None ∧
       Ref.class r h1
       = (Normal k, <[k := ORef (join "/" (strs ++ [p]))]> h1)).
Proof.
  split.
  - intros args strs Hne Hsegs.
    destruct (constructor_segments h args strs Hsegs) as (r & Hr & Hnew).
    exists r, (join "/" strs), (<[r := ORef (join "/" strs)]> h).
    split_and!; [done | apply lookup_insert_eq | by apply split_join_concat |].
    intros Hslash. rewrite (split_join_concat "/" strs Hne).
    rewrite (Forall2_length _ _ _ Hsegs).
    by apply length_concat_split.
  - intros args strs t p q Hsegs -> Hq.
    destruct (constructor_segments h args _ Hsegs) as (r & Hr & Hnew).
    assert (join "/" (strs ++ [p +:+ "/" +:+ q])
            = join "/" (strs ++ [p]) +:+ "/" +:+ q) as Hjoin.
    { destruct strs as [|s strs]; [done |].
      rewrite !(join_snoc "/" (s :: strs)) by done.
      by rewrite !append_assoc. }
    rewrite Hjoin in Hnew.
    set (h1 := <[r := ORef (join "/" (strs ++ [p]) +:+ "/" +:+ q)]> h) in *.
    assert (h1 !! r = Some (ORef (join "/" (strs ++ [p]) +:+ "/" +:+ q)))
      as Hthis by apply lookup_insert_eq.
    destruct (class_snoc h1 r _ q Hthis Hq) as (k & Hk & Hclass).
    exists r, k, h1. rewrite (id_snoc h1 r _ q Hthis Hq).
    split_and!; try done.
    intros [= Heq]. apply (f_equal (occurs "/")) in Heq.
    rewrite Hq in Heq. clear -Heq.
    induction p as [|c p IH]; simpl in Heq; [done |].
    destruct (Ascii.eqb c "/"); [done | by apply IH].
Qed.

Lemma Ref_decomposition_splits_inside_segments_witness :
  (Forall2 (segment (∅ : heap)) [VStr "a"; VStr "b/c"] (["a"] ++ ["b/c"]) ∧
   "b/c" = "b" +:+ "/" +:+ "c" ∧ occurs "/" "c" = false) ∧
  ∃ r k h1,
    Ref.constructor [VStr "a"; VStr "b/c"] ∅ = (Normal r, h1) ∧
    Ref.id r h1 = (Normal (VStr "c"), h1) ∧
    Ref.id r h1 ≠ (Normal (VStr "b/c"), h1) ∧
    h1 !! k = None ∧
    Ref.class r h1 = (Normal k, <[k := ORef "a/b"]> h1).
Proof.
  assert (Forall2 (segment (∅ : heap)) [VStr "a"; VStr "b/c"]
            (["a"] ++ ["b/c"])) as Hsegs by (repeat constructor).
  split; [by split_and! |].
  exact (proj2 (Ref_decomposition_splits_inside_segments ∅)
           [VStr "a"; VStr "b/c"] ["a"] "b/c" "b" "c" Hsegs eq_refl eq_refl).
Defined.

(** ** Pages without an array, and raw objects *)


(** X3. [Page.fromRaw] reads [data], [before] and [after] off its argument
    and validates nothing.  A Page is copied into a new Page; an object
    literal gives a Page of its three properties, with [undefined] for each
    one it lacks; every object at all gives a Page; a string or a boolean
    gives a Page of three [undefined]s.  It fails exactly on [undefined] and
    [null], with a [TypeError] and nothing allocated. *)
Theorem Page_fromRaw_reads_three_fields (h : heap) :
  (∀ p d b a, h !! p = Some (OPage d b a) →
     ∃ p', h !! p' = None ∧
           Page.fromRaw (VObj p) h = (Normal p', <[p' := OPage d b a]> h)) ∧
  (∀ l props, h !! l = Some (OObject props) →
     ∃ p', h !! p' = None ∧
           Page.fromRaw (VObj l) h
           = (Normal p',
              <[p' := OPage (default VUndefined (property "data" props))
                            (default VUndefined (property "before" props))
                            (default VUndefined (property "after" props))]> h)) ∧
  (∀ l o, h !! l = Some o →
     ∃ p' d b a, h !! p' = None ∧
                 Page.fromRaw (VObj l) h = (Normal p', <[p' := OPage d b a]> h)) ∧
  (∀ s, ∃ p', h !! p' = None ∧
              Page.fromRaw (VStr s) h
              = (Normal p', <[p' := OPage VUndefined VUndefined VUndefined]> h)) ∧
  (∀ b, ∃ p', h !! p' = None ∧
              Page.fromRaw (VBool b) h
              = (Normal p', <[p' := OPage VUndefined VUndefined VUndefined]> h)) ∧
  Page.fromRaw VUndefined h = (Throw TypeError, h) ∧
  Page.fromRaw VNull h = (Throw TypeError, h) ∧
  (∀ v, valid h v →
        (∃ e h', Page.fromRaw v h = (Throw e, h')) ↔
        v = VUndefined ∨ v = VNull).
Proof.
  split_and!; try done.
  - intros p d b a Hp. apply (fromRaw_object h p _ Hp).
  - intros l props Hl. apply (fromRaw_object h l _ Hl).
  - intros l o Hl. destruct (fromRaw_object h l o Hl) as (p' & Hp' & Hraw).
    by eexists p', _, _, _.
  - intros s. exists (fresh (dom h)). split; [apply fresh_unused | done].
  - intros b. exists (fresh (dom h)). split; [apply fresh_unused | done].
  - intros v Hv. split.
    + intros (e & h' & Hthrow).
      destruct v as [| |b|s|l]; [by left | by right | done | done |].
      destruct Hv as [o Hl].
      destruct (fromRaw_object h l o Hl) as (p' & _ & Hraw). congruence.
    + intros [-> | ->]; by eexists _, _.
Qed.

Lemma Page_fromRaw_reads_three_fields_witness :
  let h : heap :=
    {[ 1%positive := OObject [("data", VObj 2%positive);
                              ("after", VObj 3%positive)];
       2%positive := OArray [VStr "a"];
       3%positive := ORef "classes/x/1" ]} in
  (h !! 1%positive
   = Some (OObject [("data", VObj 2%positive); ("after", VObj 3%positive)]) ∧
   ∃ p', h !! p' = None ∧
         Page.fromRaw (VObj 1%positive) h
         = (Normal p',
            <[p' := OPage (VObj 2%positive) VUndefined (VObj 3%positive)]> h)) ∧
  (valid h (VStr "abc") ∧
   ¬ ∃ e h', Page.fromRaw (VStr "abc") h = (Throw e, h')).
Proof.
  intros h.
  destruct (Page_fromRaw_reads_three_fields h)
    as (_ & Hliteral & _ & _ & _ & _ & _ & Hiff).
  split.
  - split; [reflexivity |].
    apply (Hliteral 1%positive
             [("data", VObj 2%positive); ("after", VObj 3%positive)]).
    reflexivity.
  - split; [exact I |]. intros Hthrow.
    apply (Hiff (VStr "abc") I) in Hthrow. by destruct Hthrow.
Defined.

(** X5. [mapData] throws a [TypeError], and allocates nothing, on a Page
    whose [data] has no [map] method: [undefined], [null], a boolean, a
    string, or an instance of a class of this module or a Date.  Since
    [fromRaw] does not check, a raw object without a [data] property gives a
    Page on which [mapData] fails so. *)
Theorem Page_mapData_needs_map (h : heap) (func : Callback) :
  (∀ p data before after,
     h !! p = Some (OPage data before after) →
     (∀ l, data ≠ VObj l) →
     Page.mapData p func h = (Throw TypeError, h)) ∧
  (∀ p l o before after,
     h !! p = Some (OPage (VObj l) before after) →
     h !! l = Some o → class_instance o →
     Page.mapData p func h = (Throw TypeError, h)) ∧
  (∀ l props,
     h !! l = Some (OObject props) → property "data" props = None →
     ∃ p' h',
       Page.fromRaw (VObj l) h = (Normal p', h') ∧
       h' !! p' = Some (OPage VUndefined
                          (default VUndefined (property "before" props))
                          (default VUndefined (property "after" props))) ∧
       (do p <- Page.fromRaw (VObj l); Page.mapData p func) h
       = (Throw TypeError, h')).
Proof.
  split_and!.
  - intros p data before after Hp Hprim.
    eapply mapData_not_array; [done | |].
    + destruct data; try done. by destruct (Hprim l).
    + intros (l & xs & -> & _). by destruct (Hprim l).
  - intros p l o before after Hp Hl Ho.
    eapply mapData_not_array; [done | by exists o |].
    intros (l' & xs & [= <-] & Hl'). rewrite Hl in Hl'.
    injection Hl' as ->. done.
  - intros l props Hl Hdata.
    destruct (fromRaw_object h l _ Hl) as (p' & Hp' & Hraw).
    simpl in Hraw. rewrite Hdata in Hraw. simpl in Hraw.
    eexists p', _. split; [exact Hraw |].
    split; [apply lookup_insert_eq |].
    unfold bind at 1. rewrite Hraw.
    eapply mapData_not_array; [apply lookup_insert_eq | done |].
    by intros (l' & xs & ? & _).
Qed.

Lemma Page_mapData_needs_map_witness :
  let h : heap :=
    {[ 1%positive := OPage (VStr "abc") VUndefined VUndefined;
       2%positive := OObject [("before", VNull)];
       3%positive := OPage (VObj 4%positive) VUndefined VUndefined;
       4%positive := ORef "classes/x" ]} in
  (h !! 1%positive = Some (OPage (VStr "abc") VUndefined VUndefined) ∧
   (∀ l, VStr "abc" ≠ VObj l) ∧
   Page.mapData 1%positive (unary (λ x, x)) h = (Throw TypeError, h)) ∧
  (h !! 3%positive = Some (OPage (VObj 4%positive) VUndefined VUndefined) ∧
   h !! 4%positive = Some (ORef "classes/x") ∧
   class_instance (ORef "classes/x") ∧
   Page.mapData 3%positive (unary (λ x, x)) h = (Throw TypeError, h)) ∧
  (h !! 2%positive = Some (OObject [("before", VNull)]) ∧
   property "data" [("before", VNull)] = None ∧
   ∃ p' h',
     Page.fromRaw (VObj 2%positive) h = (Normal p', h') ∧
     h' !! p' = Some (OPage VUndefined VNull VUndefined) ∧
     (do p <- Page.fromRaw (VObj 2%positive);
      Page.mapData p (unary (λ x, x))) h
     = (Throw TypeError, h')).
Proof.
  intros h.
  destruct (Page_mapData_needs_map h (unary (λ x, x)))
    as (Hprim & Hinst & Hraw).
  assert (∀ l, VStr "abc" ≠ VObj l) as Hstr by done.
  split; [| split].
  - split; [reflexivity |]. split; [exact Hstr |].
    exact (Hprim 1%positive (VStr "abc") VUndefined VUndefined eq_refl Hstr).
  - split; [reflexivity |]. split; [reflexivity |]. split; [exact I |].
    exact (Hinst 3%positive 4%positive (ORef "classes/x") VUndefined VUndefined
             eq_refl eq_refl I).
  - split; [reflexivity |]. split; [reflexivity |].
    exact (Hraw 2%positive [("before", VNull)] eq_refl eq_refl).
Defined.

(** X15. A FaunaTime is rebuilt from its value, not from itself.  For every
    FaunaTime that the constructor returned, giving the object to the
    constructor throws a [TypeError], as [undefined], [null] and booleans
    do, and allocates nothing; giving its [value] succeeds and makes another
    FaunaTime of the same value. *)
Theorem FaunaTime_rebuilt_from_value (h : heap) :
  FaunaTime.constructor VUndefined h = (Throw TypeError, h) ∧
  FaunaTime.constructor VNull h = (Throw TypeError, h) ∧
  (∀ b, FaunaTime.constructor (VBool b) h = (Throw TypeError, h)) ∧
  (∀ v r h',
     FaunaTime.constructor v h = (Normal r, h') →
     FaunaTime.constructor (VObj r) h' = (Throw TypeError, h') ∧
     ∃ r2 x,
       h' !! r = Some (OFaunaTime x) ∧
       (do s <- FaunaTime.value r; FaunaTime.constructor (VStr s)) h'
       = (Normal r2, <[r2 := OFaunaTime x]> h') ∧
       r2 ≠ r).
Proof.
  split_and!; try done.
  intros v r h' (x & -> & Hr & Hcase)%FaunaTime_constructor_inv.
  set (h' := <[r := OFaunaTime x]> h).
  assert (h' !! r = Some (OFaunaTime x)) as Hr' by apply lookup_insert_eq.
  assert (∃ p, x = p +:+ "Z") as [p ->].
  { destruct Hcase as [[_ Hz]|(d & t & _ & _ & ->)];
      [by apply endsWith_iff | apply iso_string_ends_with_Z]. }
  split.
  - unfold FaunaTime.constructor, instanceof_Date, bind.
    by rewrite (load_Some _ _ _ Hr').
  - exists (fresh (dom h')), (p +:+ "Z"). split_and!; [done | |].
    + unfold bind at 1, FaunaTime.value, bind.
      rewrite (load_Some _ _ _ Hr'). apply FaunaTime_from_string.
    + intros Heq. pose proof (fresh_unused h') as Hfresh.
      rewrite Heq in Hfresh. congruence.
Qed.

Lemma FaunaTime_rebuilt_from_value_witness :
  ∃ r h',
    FaunaTime.constructor (VStr "2023-01-01T00:00:00.000Z") (∅ : heap)
    = (Normal r, h') ∧
    FaunaTime.constructor (VObj r) h' = (Throw TypeError, h') ∧
    ∃ r2 x,
      h' !! r = Some (OFaunaTime x) ∧
      (do s <- FaunaTime.value r; FaunaTime.constructor (VStr s)) h'
      = (Normal r2, <[r2 := OFaunaTime x]> h') ∧
      r2 ≠ r.
Proof.
  eexists _, _. split; [reflexivity |].
  eapply (proj2 (proj2 (proj2 (FaunaTime_rebuilt_from_value ∅)))
            (VStr "2023-01-01T00:00:00.000Z")).
  reflexivity.
Defined.
